(** * kaller-v3: the conversation turn orchestrator

    A shallow embedding of the call bridge's turn logic:
    - [TranscriptionService] (services/transcription-service.js): the
      Deepgram transcript handler that accumulates final segments;
    - [GptService] (services/gpt-service.js): the streaming completion loop
      with its tool-call branch and the fragment counter;
    - [App] (app.js): the playback marks and the interruption handler;
    - [LiveConnection]: which frames of the Deepgram connection reach the
      transcript handler, after [setupEventListeners];
    - [Overlap]: completions that app.js starts without awaiting them, and
      that take turns on the one service.

    JavaScript strings are sequences of UTF-16 code units, so they are
    modelled as lists of code units; [JSON.parse] is modelled by a recursive
    descent parser over such lists. *)

From Stdlib Require Import List NArith ZArith Ascii Bool Lia.
From Stdlib Require String.
Import ListNotations String.StringSyntax.

Delimit Scope string_scope with string.

Set Implicit Arguments.
Set Warnings "-register-all".

(* ===================================================================== *)
(** ** JavaScript strings *)
(* ===================================================================== *)

Module Js.

(** A UTF-16 code unit. *)
Definition char := N.

Definition jsstring := list char.

(** An ASCII literal as a JavaScript string. *)
Definition str (s : String.string) : jsstring :=
  map N_of_ascii (String.list_ascii_of_string s).

Arguments str s%_string.

(** [a === b] on strings. *)
Fixpoint jseq (a b : jsstring) : bool :=
  match a, b with
  | [], [] => true
  | x :: a', y :: b' => N.eqb x y && jseq a' b'
  | _, _ => false
  end.

(** [s.length] *)
Definition jslength (s : jsstring) : Z := Z.of_nat (length s).

(** Truthiness of a string: only the empty string is falsy. *)
Definition truthy (s : jsstring) : bool :=
  match s with [] => false | _ => true end.

(** The code units [String.prototype.trim] strips: WhiteSpace and
    LineTerminator of ECMA-262. *)
Definition is_whitespace (c : char) : bool :=
  ((9 <=? c) && (c <=? 13)        (* TAB, LF, VT, FF, CR *)
   || (c =? 32)                   (* SPACE *)
   || (c =? 160)                  (* NBSP *)
   || (c =? 5760)                 (* U+1680 *)
   || ((8192 <=? c) && (c <=? 8202)) (* U+2000 .. U+200A *)
   || (c =? 8232) || (c =? 8233)  (* U+2028, U+2029 *)
   || (c =? 8239) || (c =? 8287)  (* U+202F, U+205F *)
   || (c =? 12288)                (* U+3000 *)
   || (c =? 65279))%N.            (* U+FEFF *)

Fixpoint trimStart (s : jsstring) : jsstring :=
  match s with
  | c :: s' => if is_whitespace c then trimStart s' else s
  | [] => []
  end.

(** [s.trim()] *)
Definition trim (s : jsstring) : jsstring :=
  rev (trimStart (rev (trimStart s))).

Definition clamp (lo hi x : Z) : Z := Z.max lo (Z.min hi x).

(** [s.slice(start)]: a negative [start] counts from the end. *)
Definition slice (s : jsstring) (start : Z) : jsstring :=
  let len := jslength s in
  let from := if (start <? 0)%Z then Z.max (len + start) 0 else Z.min start len in
  skipn (Z.to_nat from) s.

(** [s.substring(a, b)]: both ends are clamped to [0, length] and swapped
    when out of order. *)
Definition substring (s : jsstring) (a b : Z) : jsstring :=
  let len := jslength s in
  let a' := clamp 0 len a in
  let b' := clamp 0 len b in
  let from := Z.min a' b' in
  let to := Z.max a' b' in
  firstn (Z.to_nat (to - from)) (skipn (Z.to_nat from) s).

Fixpoint startsWith (needle s : jsstring) : bool :=
  match needle, s with
  | [], _ => true
  | x :: n', y :: s' => N.eqb x y && startsWith n' s'
  | _ :: _, [] => false
  end.

Fixpoint indexOf_from (needle s : jsstring) (i : Z) : Z :=
  if startsWith needle s then i
  else match s with
       | [] => (-1)%Z
       | _ :: s' => indexOf_from needle s' (i + 1)%Z
       end.

(** [s.indexOf(needle)]: the first position, or -1. *)
Definition indexOf (s needle : jsstring) : Z := indexOf_from needle s 0%Z.

Fixpoint lastIndexOf_from (needle s : jsstring) (i acc : Z) : Z :=
  let acc' := if startsWith needle s then i else acc in
  match s with
  | [] => acc'
  | _ :: s' => lastIndexOf_from needle s' (i + 1)%Z acc'
  end.

(** [s.lastIndexOf(needle)]: the last position, or -1. *)
Definition lastIndexOf (s needle : jsstring) : Z :=
  lastIndexOf_from needle s 0%Z (-1)%Z.

End Js.

Import Js.

(* ===================================================================== *)
(** ** JSON.parse *)
(* ===================================================================== *)

Module Json.

(** A parsed JSON value. A number is kept as the decimal it denotes,
    [mantissa * 10 ^ exponent] (its rounding to a double is not modelled);
    an object is kept as its members in source order. *)
Inductive json :=
| JNull
| JBool (b : bool)
| JNumber (mantissa exponent : Z)
| JString (s : jsstring)
| JArray (items : list json)
| JObject (members : list (jsstring * json)).

(** The result of parsing a prefix of the input: a value and the rest of
    the input, a syntax error, or [Cutoff] when the recursion budget is
    used up. *)
Inductive result (A : Type) :=
| Ok (a : A) (rest : jsstring)
| SyntaxError
| Cutoff.

Arguments Ok {A} a rest.
Arguments SyntaxError {A}.
Arguments Cutoff {A}.

(** JSON whitespace: TAB, LF, CR, SPACE. *)
Definition is_ws (c : char) : bool :=
  ((c =? 9) || (c =? 10) || (c =? 13) || (c =? 32))%N.

Fixpoint skip_ws (s : jsstring) : jsstring :=
  match s with
  | c :: s' => if is_ws c then skip_ws s' else s
  | [] => []
  end.

Definition is_digit (c : char) : bool := ((48 <=? c) && (c <=? 57))%N.

Definition hex_value (c : char) : option N :=
  if ((48 <=? c) && (c <=? 57))%N then Some (c - 48)%N
  else if ((97 <=? c) && (c <=? 102))%N then Some (c - 87)%N
  else if ((65 <=? c) && (c <=? 70))%N then Some (c - 55)%N
  else None.

Definition hex4 (a b c d : char) : option char :=
  match hex_value a, hex_value b, hex_value c, hex_value d with
  | Some x, Some y, Some z, Some w => Some (((x * 16 + y) * 16 + z) * 16 + w)%N
  | _, _, _, _ => None
  end.

(** The single-character escapes after a backslash. *)
Definition escape (c : char) : option char :=
  if (c =? 34)%N then Some 34%N          (* quote *)
  else if (c =? 92)%N then Some 92%N     (* backslash *)
  else if (c =? 47)%N then Some 47%N     (* slash *)
  else if (c =? 98)%N then Some 8%N      (* b *)
  else if (c =? 102)%N then Some 12%N    (* f *)
  else if (c =? 110)%N then Some 10%N    (* n *)
  else if (c =? 114)%N then Some 13%N    (* r *)
  else if (c =? 116)%N then Some 9%N     (* t *)
  else None.

(** The characters of a string literal after its opening quote, up to and
    including the closing quote. [acc] holds what was read, reversed. *)
Fixpoint string_chars (s : jsstring) (acc : jsstring) : result jsstring :=
  match s with
  | [] => SyntaxError
  | c :: s1 =>
      if (c =? 34)%N then Ok (rev acc) s1
      else if (c =? 92)%N then
        match s1 with
        | [] => SyntaxError
        | e :: s2 =>
            if (e =? 117)%N then
              match s2 with
              | h1 :: h2 :: h3 :: h4 :: s3 =>
                  match hex4 h1 h2 h3 h4 with
                  | Some u => string_chars s3 (u :: acc)
                  | None => SyntaxError
                  end
              | _ => SyntaxError
              end
            else
              match escape e with
              | Some u => string_chars s2 (u :: acc)
              | None => SyntaxError
              end
        end
      else if (c <? 32)%N then SyntaxError
      else string_chars s1 (c :: acc)
  end.

(** The longest run of decimal digits at the head of the input, as digit
    values. *)
Fixpoint span_digits (s : jsstring) : list N * jsstring :=
  match s with
  | c :: s' =>
      if is_digit c then
        let '(ds, r) := span_digits s' in ((c - 48)%N :: ds, r)
      else ([], s)
  | [] => ([], [])
  end.

Definition digits_value (ds : list N) : Z :=
  fold_left (fun a d => (a * 10 + Z.of_N d)%Z) ds 0%Z.

(** The optional fraction: [. digit+]. Gives the fraction digits. *)
Definition fraction (s : jsstring) : result (list N) :=
  match s with
  | c :: s1 =>
      if (c =? 46)%N then
        match span_digits s1 with
        | ([], _) => SyntaxError
        | (ds, r) => Ok ds r
        end
      else Ok [] s
  | [] => Ok [] s
  end.

(** The optional exponent: [(e|E) (+|-)? digit+]. *)
Definition exponent_part (s : jsstring) : result Z :=
  match s with
  | c :: s1 =>
      if ((c =? 101) || (c =? 69))%N then
        let '(neg, s2) :=
          match s1 with
          | g :: s2 =>
              if (g =? 45)%N then (true, s2)
              else if (g =? 43)%N then (false, s2)
              else (false, s1)
          | [] => (false, s1)
          end in
        match span_digits s2 with
        | ([], _) => SyntaxError
        | (ds, r) => Ok (if neg then (- digits_value ds)%Z else digits_value ds) r
        end
      else Ok 0%Z s
  | [] => Ok 0%Z s
  end.

(** A number: an optional minus sign, then a single 0 or a run of digits
    that does not start with 0, then the optional fraction and exponent. *)
Definition number (s : jsstring) : result json :=
  let '(neg, s1) :=
    match s with
    | c :: s' => if (c =? 45)%N then (true, s') else (false, s)
    | [] => (false, s)
    end in
  match s1 with
  | [] => SyntaxError
  | d :: s2 =>
      if is_digit d then
        let '(ints, s3) :=
          if (d =? 48)%N then ([0%N], s2)
          else let '(ds, r) := span_digits s2 in ((d - 48)%N :: ds, r) in
        match fraction s3 with
        | Ok fs s4 =>
            match exponent_part s4 with
            | Ok e s5 =>
                let m := digits_value (ints ++ fs) in
                Ok (JNumber (if neg then (- m)%Z else m)
                            (e - Z.of_nat (length fs))%Z) s5
            | SyntaxError => SyntaxError
            | Cutoff => Cutoff
            end
        | SyntaxError => SyntaxError
        | Cutoff => Cutoff
        end
      else SyntaxError
  end.

(** A keyword literal. *)
Definition keyword (word : jsstring) (v : json) (s : jsstring) : result json :=
  if startsWith word s then Ok v (skipn (length word) s) else SyntaxError.

(** A value, the elements of an array after its opening bracket, and the
    members of an object after its opening brace. Every call spends one
    unit of [fuel]. *)
Fixpoint value (fuel : nat) (s : jsstring) : result json :=
  match fuel with
  | O => Cutoff
  | S f =>
      match skip_ws s with
      | [] => SyntaxError
      | c :: s1 =>
          if (c =? 123)%N then
            match skip_ws s1 with
            | c' :: s2 =>
                if (c' =? 125)%N then Ok (JObject []) s2
                else members f (c' :: s2) []
            | [] => SyntaxError
            end
          else if (c =? 91)%N then
            match skip_ws s1 with
            | c' :: s2 =>
                if (c' =? 93)%N then Ok (JArray []) s2
                else elements f (c' :: s2) []
            | [] => SyntaxError
            end
          else if (c =? 34)%N then
            match string_chars s1 [] with
            | Ok lit r => Ok (JString lit) r
            | SyntaxError => SyntaxError
            | Cutoff => Cutoff
            end
          else if (c =? 116)%N then keyword (str "true") (JBool true) (c :: s1)
          else if (c =? 102)%N then keyword (str "false") (JBool false) (c :: s1)
          else if (c =? 110)%N then keyword (str "null") JNull (c :: s1)
          else number (c :: s1)
      end
  end

with elements (fuel : nat) (s : jsstring) (acc : list json) : result json :=
  match fuel with
  | O => Cutoff
  | S f =>
      match value f s with
      | Ok v r =>
          match skip_ws r with
          | c :: r1 =>
              if (c =? 44)%N then elements f r1 (v :: acc)
              else if (c =? 93)%N then Ok (JArray (rev (v :: acc))) r1
              else SyntaxError
          | [] => SyntaxError
          end
      | SyntaxError => SyntaxError
      | Cutoff => Cutoff
      end
  end

with members (fuel : nat) (s : jsstring) (acc : list (jsstring * json))
  : result json :=
  match fuel with
  | O => Cutoff
  | S f =>
      match skip_ws s with
      | c :: s1 =>
          if (c =? 34)%N then
            match string_chars s1 [] with
            | Ok key r =>
                match skip_ws r with
                | c1 :: r1 =>
                    if (c1 =? 58)%N then
                      match value f r1 with
                      | Ok v r2 =>
                          match skip_ws r2 with
                          | c2 :: r3 =>
                              if (c2 =? 44)%N then
                                members f r3 ((key, v) :: acc)
                              else if (c2 =? 125)%N then
                                Ok (JObject (rev ((key, v) :: acc))) r3
                              else SyntaxError
                          | [] => SyntaxError
                          end
                      | SyntaxError => SyntaxError
                      | Cutoff => Cutoff
                      end
                    else SyntaxError
                | [] => SyntaxError
                end
            | SyntaxError => SyntaxError
            | Cutoff => Cutoff
            end
          else SyntaxError
      | [] => SyntaxError
      end
  end.

(** The recursion budget [JSON_parse] gives [value]: two units for each
    code unit of the text, which it never uses up (see
    [JsonFacts.value_fuel]). *)
Definition budget (s : jsstring) : nat := 2 * length s + 2.

(** [JSON.parse(text)] on a string: [Some v] when the whole text is one
    JSON value, [None] when it throws a SyntaxError. *)
Definition JSON_parse (text : jsstring) : option json :=
  match value (budget text) text with
  | Ok v r => match skip_ws r with [] => Some v | _ :: _ => None end
  | SyntaxError => None
  | Cutoff => None
  end.

(** A successful call of the parser consumes input. *)
Definition consuming (fuel : nat) : Prop :=
  (forall s v r, value fuel s = Ok v r -> length r < length s) /\
  (forall s acc v r, elements fuel s acc = Ok v r -> length r < length s) /\
  (forall s acc v r, members fuel s acc = Ok v r -> length r < length s).

(** With two units of fuel for each code unit, no call is cut off. *)
Definition funded (fuel : nat) : Prop :=
  (forall s, 2 * length s + 1 <= fuel -> value fuel s <> Cutoff) /\
  (forall s acc, 2 * length s + 2 <= fuel -> elements fuel s acc <> Cutoff) /\
  (forall s acc, 2 * length s + 2 <= fuel -> members fuel s acc <> Cutoff).

End Json.

(* ===================================================================== *)
(** ** services/transcription-service.js *)
(* ===================================================================== *)

Module TranscriptionService.

(** What the handler reads of a Deepgram event: [type], the truthiness of
    [is_final] and [speech_final], and
    [channel?.alternatives[0]?.transcript] ([None] when any link of that
    chain is missing). *)
Record TranscriptionEvent := {
  type : jsstring;
  is_final : bool;
  speech_final : bool;
  transcript : option jsstring
}.

(** The two fields set by the constructor. *)
Record State := {
  finalResult : jsstring;
  speechFinal : bool
}.

(** [this.emit(name, text)] *)
Inductive Emitted :=
| Transcription (text : jsstring)
| Utterance (text : jsstring).

(** The state after [constructor()]. *)
Definition init : State := {| finalResult := []; speechFinal := false |}.

(** [alternatives && alternatives[0]?.transcript ? alternatives[0].transcript : ""] *)
Definition text_of (ev : TranscriptionEvent) : jsstring :=
  match transcript ev with
  | Some t => if truthy t then t else []
  | None => []
  end.

(** The [LiveTranscriptionEvents.Transcript] listener (console output left
    out). *)
Definition onTranscript (s : State) (ev : TranscriptionEvent)
  : State * list Emitted :=
  let text := text_of ev in
  if jseq (type ev) (str "UtteranceEnd") then
    if negb (speechFinal s) && (0 <? jslength (finalResult s))%Z then
      ({| finalResult := []; speechFinal := speechFinal s |},
       [Transcription (finalResult s)])
    else (s, [])
  else if is_final ev && (0 <? jslength (trim text))%Z then
    let acc := finalResult s ++ text ++ str " " in
    if speech_final ev then
      ({| finalResult := []; speechFinal := true |}, [Transcription acc])
    else
      ({| finalResult := acc; speechFinal := false |}, [])
  else if (0 <? jslength (trim text))%Z then
    (s, [Utterance text])
  else (s, []).

(** The listener run over a sequence of events, collecting what it emits. *)
Fixpoint run (s : State) (evs : list TranscriptionEvent)
  : State * list Emitted :=
  match evs with
  | [] => (s, [])
  | ev :: evs' =>
      let '(s1, out1) := onTranscript s ev in
      let '(s2, out2) := run s1 evs' in
      (s2, out1 ++ out2)
  end.

(** A transcript event proper, as opposed to the end-of-segment signal. *)
Definition is_results (ev : TranscriptionEvent) : Prop :=
  jseq (type ev) (str "UtteranceEnd") = false.

(** The end-of-segment signal. *)
Definition is_utterance_end (ev : TranscriptionEvent) : Prop :=
  jseq (type ev) (str "UtteranceEnd") = true.

(** The transcripts of the events, each followed by the separator. *)
Definition joined (evs : list TranscriptionEvent) : jsstring :=
  concat (map (fun ev => text_of ev ++ str " ") evs).

(** A stable segment the listener accumulates: [is_final] is set and the
    transcript is not blank ([text.trim().length > 0]). *)
Definition final_segment (ev : TranscriptionEvent) : Prop :=
  is_results ev /\ is_final ev = true /\ trim (text_of ev) <> [].

(** A final event whose text is merely non-empty ([text.length > 0]). *)
Definition final_nonempty (ev : TranscriptionEvent) : Prop :=
  is_results ev /\ is_final ev = true /\ text_of ev <> [].

End TranscriptionService.

(* ===================================================================== *)
(** ** services/gpt-service.js *)
(* ===================================================================== *)

Module GptService.

Import Json.

(** The roles the service writes into the dialogue log. *)
Inductive Role := system | assistant | user | function.

(** One entry of [userContext]: [{role, name?, content}]. *)
Record Message := {
  role : Role;
  name : option jsstring;
  content : jsstring
}.

(** [finish_reason] of a chunk, when it is not [null]. *)
Inductive FinishReason :=
| stop | length_limit | tool_calls | content_filter | function_call.

(** What the loop reads of [delta.tool_calls[0]?.function]. *)
Record ToolCallDelta := {
  tc_name : option jsstring;
  tc_arguments : option jsstring
}.

(** What the loop reads of a chunk of the stream: [choices[0].delta.content],
    [choices[0].delta.tool_calls] and [choices[0].finish_reason]. *)
Record Chunk := {
  delta_content : option jsstring;
  delta_tool_calls : option ToolCallDelta;
  finish_reason : option FinishReason
}.

(** An entry of functions/function-manifest together with the module
    functions/<name> that [availableFunctions] loads for it. Neither file is
    part of the sources at hand, so the tools are a parameter of the model:
    [say] is the announcement and [call] the function, which gets the
    validated arguments ([None] for [undefined]) and gives its response, or
    [None] when it throws. *)
Record Tool := {
  tool_name : jsstring;
  say : jsstring;
  call : option json -> option jsstring
}.

(** What the service does that an observer can see, in order. *)
Inductive Event :=
| GptReply (index : option nat) (partialResponse : jsstring)
           (interactionCount : nat)        (* this.emit("gptreply", ...) *)
| Create (messages : list Message)         (* openai.chat.completions.create *)
| Called (tool : jsstring) (args : option json) (* functionToCall(validatedArgs) *)
| Warned (args : jsstring)                 (* console.log in validateFunctionArgs *)
| ContextLength (n : nat).                 (* console.log closing completion *)

(** The object's two fields and the trace of what it did so far. *)
Record State := {
  userContext : list Message;
  partialResponseIndex : nat;
  trace : list Event
}.

Inductive Error := SyntaxError | TypeError | ToolFailure.

(** How a call ends: it returns, it throws, or the model ran out of the
    budget for nested completions. *)
Inductive Outcome := Returned | Threw (e : Error) | Cutoff.

(** The variables declared before the loop of [completion]. *)
Record Locals := {
  completeResponse : jsstring;
  partialResponse : jsstring;
  functionName : jsstring;
  functionArgs : jsstring;
  finishReason : option FinishReason
}.

(** The type of [completion], as the tool branch calls it. *)
Definition Again : Type :=
  jsstring -> nat -> Role -> jsstring -> State -> Outcome * State.

(** [b] gives what [a] gives, wherever [a] is not cut off. *)
Definition agrees (a b : Again) : Prop :=
  forall text ic r nm st o st',
    a text ic r nm st = (o, st') -> o <> Cutoff ->
    b text ic r nm st = (o, st').

Definition record (e : Event) (st : State) : State :=
  {| userContext := userContext st;
     partialResponseIndex := partialResponseIndex st;
     trace := trace st ++ [e] |}.

(** [this.userContext.push(m)] *)
Definition push (m : Message) (st : State) : State :=
  {| userContext := userContext st ++ [m];
     partialResponseIndex := partialResponseIndex st;
     trace := trace st |}.

(** [loadPromptFromFile()]: the two prompts read from prompt.json, or the
    fallback when the file is missing or invalid. *)
Definition loadPromptFromFile (file : option (jsstring * jsstring))
  : list Message :=
  match file with
  | Some (system_prompt, assistant_prompt) =>
      [ {| role := system; name := None; content := system_prompt |};
        {| role := assistant; name := None; content := assistant_prompt |} ]
  | None =>
      [ {| role := system; name := None;
           content := str "You are a helpful assistant." |};
        {| role := assistant; name := None;
           content := str "Hello! How can I help you today?" |} ]
  end.

(** [constructor()] *)
Definition constructor (file : option (jsstring * jsstring)) : State :=
  {| userContext := loadPromptFromFile file;
     partialResponseIndex := 0;
     trace := [] |}.

Definition is_assistant (m : Message) : bool :=
  match role m with assistant => true | _ => false end.

(** [getInitialGreeting()]: the index (always [null]) and the text. *)
Definition getInitialGreeting (st : State) : option nat * jsstring :=
  (None,
   match find is_assistant (userContext st) with
   | Some m => content m
   | None => str "Hello."
   end).

(** [setCallSid(callSid)] *)
Definition setCallSid (callSid : jsstring) (st : State) : State :=
  push {| role := system; name := None;
          content := str "callSid: " ++ callSid |} st.

(** [validateFunctionArgs(args)]: the parsed arguments, [None] for the
    [undefined] the function returns by falling off its end, or the error it
    throws. *)
Definition validateFunctionArgs (args : jsstring) (st : State)
  : (Error + option json) * State :=
  match JSON_parse args with
  | Some v => (inr (Some v), st)
  | None =>
      let st1 := record (Warned args) st in
      if negb (indexOf args (str "{") =? lastIndexOf args (str "{"))%Z then
        match JSON_parse
                (substring args (indexOf args [])
                           (indexOf args (str "}") + 1)%Z) with
        | Some v => (inr (Some v), st1)
        | None => (inl SyntaxError, st1)
        end
      else (inr None, st1)
  end.

(** [updateUserContext(name, role, text)] *)
Definition updateUserContext (nm : jsstring) (r : Role) (text : jsstring)
    (st : State) : State :=
  if negb (jseq nm (str "user")) then
    push {| role := r; name := Some nm; content := text |} st
  else
    push {| role := r; name := None; content := text |} st.

(** [x || ""] for an optional string. *)
Definition or_empty (x : option jsstring) : jsstring :=
  match x with
  | Some s => if truthy s then s else []
  | None => []
  end.

(** [collectToolInformation(deltas)] *)
Definition collectToolInformation (d : ToolCallDelta) (l : Locals) : Locals :=
  let nm := or_empty (tc_name d) in
  let args := or_empty (tc_arguments d) in
  {| completeResponse := completeResponse l;
     partialResponse := partialResponse l;
     functionName := if truthy nm then nm else functionName l;
     functionArgs := if truthy args then functionArgs l ++ args
                     else functionArgs l;
     finishReason := finishReason l |}.

Definition is_tool_calls (r : option FinishReason) : bool :=
  match r with Some tool_calls => true | _ => false end.

Definition is_stop (r : option FinishReason) : bool :=
  match r with Some stop => true | _ => false end.

Section Completion.

(** The manifest. *)
Variable tools : list Tool.

(** The string literal the last character of a chunk is compared with. *)
Variable marker : jsstring.

(** The language model: the stream it answers a request for the given
    messages with. The request itself is taken to succeed. Within one
    service every request follows a push, so no two requests carry the same
    messages and a function of the messages can stand for any model. *)
Variable create : list Message -> list Chunk.

(** [tools.find((tool) => tool.function.name === functionName)]; the same
    name selects the function in [availableFunctions]. *)
Definition find_tool (nm : jsstring) : option Tool :=
  find (fun t => jseq (tool_name t) nm) tools.

(** [content.trim().slice(-1) === marker || finishReason === "stop"] *)
Definition emits_fragment (text : jsstring) (l : Locals) : bool :=
  jseq (slice (trim text) (-1)) marker || is_stop (finishReason l).

(** The [else] branch of the loop body: plain text. *)
Definition text_branch (interactionCount : nat) (text : jsstring)
    (l : Locals) (st : State) : Locals * State :=
  let complete := completeResponse l ++ text in
  let partial := partialResponse l ++ text in
  if emits_fragment text l then
    ({| completeResponse := complete;
        partialResponse := [];
        functionName := functionName l;
        functionArgs := functionArgs l;
        finishReason := finishReason l |},
     {| userContext := userContext st;
        partialResponseIndex := S (partialResponseIndex st);
        trace := trace st ++
                 [GptReply (Some (partialResponseIndex st)) partial
                           interactionCount] |})
  else
    ({| completeResponse := complete;
        partialResponse := partial;
        functionName := functionName l;
        functionArgs := functionArgs l;
        finishReason := finishReason l |}, st).

(** The [if (finishReason === "tool_calls")] branch of the loop body.
    [again] is the recursive call of [completion]. *)
Definition tool_branch
    (again : Again)
    (interactionCount : nat) (l : Locals) (st : State) : Outcome * State :=
  match validateFunctionArgs (functionArgs l) st with
  | (inl e, st1) => (Threw e, st1)
  | (inr validatedArgs, st1) =>
      match find_tool (functionName l) with
      | None => (Threw TypeError, st1)
      | Some toolData =>
          let st2 := record (GptReply None (say toolData) interactionCount) st1 in
          let st3 := record (Called (functionName l) validatedArgs) st2 in
          match call toolData validatedArgs with
          | None => (Threw ToolFailure, st3)
          | Some functionResponse =>
              let st4 := updateUserContext (functionName l) function
                                           functionResponse st3 in
              again functionResponse interactionCount function
                    (functionName l) st4
          end
      end
  end.

(** The head of the loop body: [finishReason] is assigned and the tool
    information of the chunk, if any, collected. *)
Definition collected (chunk : Chunk) (l : Locals) : Locals :=
  let l0 := {| completeResponse := completeResponse l;
               partialResponse := partialResponse l;
               functionName := functionName l;
               functionArgs := functionArgs l;
               finishReason := finish_reason chunk |} in
  match delta_tool_calls chunk with
  | Some d => collectToolInformation d l0
  | None => l0
  end.

(** The body of [for await (const chunk of stream)]. *)
Definition body
    (again : Again)
    (interactionCount : nat) (chunk : Chunk) (l : Locals) (st : State)
  : Outcome * (Locals * State) :=
  let text := or_empty (delta_content chunk) in
  let l1 := collected chunk l in
  if is_tool_calls (finishReason l1) then
    let '(o, st') := tool_branch again interactionCount l1 st in (o, (l1, st'))
  else
    (Returned, text_branch interactionCount text l1 st).

(** The loop over the stream; it ends early when the body throws. *)
Fixpoint for_await
    (again : Again)
    (interactionCount : nat) (stream : list Chunk) (l : Locals) (st : State)
  : Outcome * (Locals * State) :=
  match stream with
  | [] => (Returned, (l, st))
  | chunk :: rest =>
      match body again interactionCount chunk l st with
      | (Returned, (l', st')) => for_await again interactionCount rest l' st'
      | stopped => stopped
      end
  end.

Definition locals0 : Locals :=
  {| completeResponse := []; partialResponse := [];
     functionName := []; functionArgs := []; finishReason := None |}.

(** [completion(text, interactionCount, role, name)]. [fuel] bounds the
    depth of the nested calls the tool branch makes. *)
Fixpoint completion (fuel : nat) (text : jsstring) (interactionCount : nat)
    (r : Role) (nm : jsstring) (st : State) : Outcome * State :=
  match fuel with
  | O => (Cutoff, st)
  | S fuel' =>
      let st1 := updateUserContext nm r text st in
      let st2 := record (Create (userContext st1)) st1 in
      match for_await (completion fuel') interactionCount
                      (create (userContext st1)) locals0 st2 with
      | (Returned, (l, st3)) =>
          let st4 := push {| role := assistant; name := None;
                             content := completeResponse l |} st3 in
          (Returned, record (ContextLength (length (userContext st4))) st4)
      | (o, (_, st3)) => (o, st3)
      end
  end.

End Completion.

(** What a call of the service from app.js is. *)
Inductive Op :=
| SetCallSid (callSid : jsstring)
| Completion (text : jsstring) (interactionCount : nat).

(** [completion(text, interactionCount)] with the default role and name, or
    [setCallSid(callSid)]; [fuel] as in [completion]. *)
Definition perform (tools : list Tool) (marker : jsstring)
    (create : list Message -> list Chunk) (fuel : nat) (op : Op) (st : State)
  : State :=
  match op with
  | SetCallSid callSid => setCallSid callSid st
  | Completion text interactionCount =>
      snd (completion tools marker create fuel text interactionCount
                      user (str "user") st)
  end.

(** A sequence of calls, each with the same budget. *)
Definition perform_all (tools : list Tool) (marker : jsstring)
    (create : list Message -> list Chunk) (fuel : nat) (ops : list Op)
    (st : State) : State :=
  fold_left (fun s op => perform tools marker create fuel op s) ops st.

(** The indices of the fragments emitted in a trace that carry one. *)
Fixpoint indices (t : list Event) : list nat :=
  match t with
  | GptReply (Some i) _ _ :: t' => i :: indices t'
  | _ :: t' => indices t'
  | [] => []
  end.

(** The fragments emitted in a trace: index and text. *)
Fixpoint fragments (t : list Event) : list (option nat * jsstring) :=
  match t with
  | GptReply i text _ :: t' => (i, text) :: fragments t'
  | _ :: t' => fragments t'
  | [] => []
  end.

(** [st'] is [st] after some more work: the log and the trace were only
    appended to, and the fragments emitted in between carry the indices from
    the counter of [st] up to that of [st']. *)
Definition grows (st st' : State) : Prop :=
  (exists k, userContext st' = userContext st ++ k) /\
  (exists t, trace st' = trace st ++ t /\
             indices t = seq (partialResponseIndex st)
                             (partialResponseIndex st' - partialResponseIndex st)) /\
  partialResponseIndex st <= partialResponseIndex st'.

(** Arguments that fail to parse and whose recovery, the re-parse of the
    text up to the first closing brace, is attempted and fails too. *)
Definition unrecoverable (args : jsstring) : Prop :=
  JSON_parse args = None /\
  indexOf args (str "{") <> lastIndexOf args (str "{") /\
  JSON_parse (substring args (indexOf args [])
                        (indexOf args (str "}") + 1)%Z) = None.

(** Arguments that fail to parse and for which no recovery is attempted. *)
Definition unattempted (args : jsstring) : Prop :=
  JSON_parse args = None /\
  indexOf args (str "{") = lastIndexOf args (str "{").

(** The literal of the earlier revision of the file: the bullet U+2022. *)
Definition bullet : jsstring := [8226%N].

(** The literal of the current revision: the three code units U+00E2,
    U+20AC, U+00A2. *)
Definition garbled_bullet : jsstring := [226%N; 8364%N; 162%N].

End GptService.

(* ===================================================================== *)
(** ** app.js: playback marks and interruption *)
(* ===================================================================== *)

Module App.

(** What the handlers send on the WebSocket. *)
Inductive Sent :=
| Clear (streamSid : option jsstring).   (* {streamSid, event: "clear"} *)

(** The variables of the connection the handlers below touch, and what was
    sent on the socket so far. *)
Record Connection := {
  streamSid : option jsstring;
  marks : list jsstring;
  sent : list Sent
}.

(** [streamService.on("audiosent", ...)]: [marks.push(markLabel)] *)
Definition onAudioSent (markLabel : jsstring) (c : Connection) : Connection :=
  {| streamSid := streamSid c;
     marks := marks c ++ [markLabel];
     sent := sent c |}.

(** The [mark] case of [ws.on("message", ...)]:
    [marks = marks.filter((m) => m !== msg.mark.name)] *)
Definition onMark (markName : jsstring) (c : Connection) : Connection :=
  {| streamSid := streamSid c;
     marks := filter (fun m => negb (jseq m markName)) (marks c);
     sent := sent c |}.

(** [text?.length > 5]; [None] stands for an absent text. *)
Definition long_enough (text : option jsstring) : bool :=
  match text with
  | Some t => (5 <? jslength t)%Z
  | None => false
  end.

(** [transcriptionService.on("utterance", ...)] *)
Definition onUtterance (text : option jsstring) (c : Connection) : Connection :=
  if (0 <? Z.of_nat (length (marks c)))%Z && long_enough text then
    {| streamSid := streamSid c;
       marks := marks c;
       sent := sent c ++ [Clear (streamSid c)] |}
  else c.

End App.

(* ===================================================================== *)
(** ** Observations on the transcript listener *)
(* ===================================================================== *)

Module TranscriptObservations.

Import TranscriptionService.

(** [text.trim().length > 0] *)
Definition nonblank (ev : TranscriptionEvent) : bool :=
  (0 <? jslength (trim (text_of ev)))%Z.

Definition utterance_end (ev : TranscriptionEvent) : bool :=
  jseq (type ev) (str "UtteranceEnd").

(** The events whose text the listener appends to the accumulator. *)
Definition accepted (ev : TranscriptionEvent) : bool :=
  negb (utterance_end ev) && is_final ev && nonblank ev.

(** The events the listener reports on the interim channel. *)
Definition interim (ev : TranscriptionEvent) : bool :=
  negb (utterance_end ev) && negb (is_final ev) && nonblank ev.

(** The events that bear on finalization: end-of-segment signals and
    accepted segments. *)
Definition decisive (ev : TranscriptionEvent) : bool :=
  utterance_end ev || accepted ev.

(** The texts emitted as "transcription", in order. *)
Fixpoint transcriptions (out : list Emitted) : list jsstring :=
  match out with
  | Transcription t :: out' => t :: transcriptions out'
  | Utterance _ :: out' => transcriptions out'
  | [] => []
  end.

(** The texts emitted as "utterance", in order. *)
Fixpoint utterances (out : list Emitted) : list jsstring :=
  match out with
  | Utterance t :: out' => t :: utterances out'
  | Transcription _ :: out' => utterances out'
  | [] => []
  end.

(** The flag is set only while nothing is pending. *)
Definition consistent (s : State) : Prop :=
  speechFinal s = true -> finalResult s = [].

(** [t] ends with the separator. *)
Definition separated (t : jsstring) : Prop := exists p, t = p ++ str " ".

End TranscriptObservations.

(* ===================================================================== *)
(** ** Observations on streams, traces and logs *)
(* ===================================================================== *)

Module StreamObservations.

Import Json GptService.

(** No chunk of the stream carries the finish reason tool_calls. *)
Definition text_only (stream : list Chunk) : bool :=
  forallb (fun c => negb (is_tool_calls (finish_reason c))) stream.

(** No chunk of the stream carries the finish reason stop. *)
Definition no_stop (stream : list Chunk) : bool :=
  forallb (fun c => negb (is_stop (finish_reason c))) stream.

(** The text of the chunks, in order. *)
Definition contents (stream : list Chunk) : jsstring :=
  concat (map (fun c => or_empty (delta_content c)) stream).

(** The argument fragment a chunk carries, if any. *)
Definition argument_fragment (c : Chunk) : jsstring :=
  match delta_tool_calls c with
  | Some d => or_empty (tc_arguments d)
  | None => []
  end.

(** The name fragment a chunk carries, if any. *)
Definition name_fragment (c : Chunk) : jsstring :=
  match delta_tool_calls c with
  | Some d => or_empty (tc_name d)
  | None => []
  end.

(** The argument fragments of the chunks, in order. *)
Definition arguments (stream : list Chunk) : jsstring :=
  concat (map argument_fragment stream).

(** The last non-empty name fragment of the chunks, or [current]. *)
Fixpoint last_name (stream : list Chunk) (current : jsstring) : jsstring :=
  match stream with
  | [] => current
  | c :: rest =>
      last_name rest (if truthy (name_fragment c) then name_fragment c
                      else current)
  end.

(** The texts of the fragments emitted in a trace. *)
Definition reply_texts (t : list Event) : list jsstring :=
  map snd (fragments t).

(** An indexed fragment of the interaction [ic]. *)
Definition indexed_reply (ic : nat) (e : Event) : Prop :=
  exists i text, e = GptReply (Some i) text ic.

(** A fragment, if [e] is one, belongs to the interaction [ic]. *)
Definition tagged (ic : nat) (e : Event) : Prop :=
  match e with
  | GptReply _ _ n => n = ic
  | _ => True
  end.

(** [st'] is [st] after more work whose fragments all belong to [ic]. *)
Definition tags (ic : nat) (st st' : State) : Prop :=
  exists t, trace st' = trace st ++ t /\ Forall (tagged ic) t.

Definition is_user (m : Message) : bool :=
  match role m with user => true | _ => false end.

(** The contents of the user turns of a log, in order. *)
Definition user_texts (log : list Message) : list jsstring :=
  map content (filter is_user log).

(** The turn [updateUserContext] appends. *)
Definition turn (nm : jsstring) (r : Role) (text : jsstring) : Message :=
  {| role := r;
     name := if jseq nm (str "user") then None else Some nm;
     content := text |}.

(** The assistant turn that closes a completion. *)
Definition reply_turn (text : jsstring) : Message :=
  {| role := assistant; name := None; content := text |}.

(** What [validateFunctionArgs] returns when it does not throw. *)
Definition validated (args : jsstring) : option json :=
  match JSON_parse args with
  | Some v => Some v
  | None =>
      if negb (indexOf args (str "{") =? lastIndexOf args (str "{"))%Z then
        JSON_parse (substring args (indexOf args [])
                              (indexOf args (str "}") + 1)%Z)
      else None
  end.

(** What [validateFunctionArgs] logs. *)
Definition warning (args : jsstring) : list Event :=
  match JSON_parse args with
  | Some _ => []
  | None => [Warned args]
  end.

(** The turns a call of [completion] adds to the user turns of the log. *)
Definition own_user_text (fuel : nat) (r : Role) (text : jsstring)
  : list jsstring :=
  match fuel, r with
  | S _, user => [text]
  | _, _ => []
  end.

(** The assistant prompt the constructor seeds the log with. *)
Definition seeded_greeting (file : option (jsstring * jsstring)) : jsstring :=
  match file with
  | Some (_, assistant_prompt) => assistant_prompt
  | None => str "Hello! How can I help you today?"
  end.

End StreamObservations.

(* ===================================================================== *)
(** ** Sample inputs *)
(* ===================================================================== *)

Module Samples.

Import Json TranscriptionService GptService App.

(** A transcript event carrying [text], final, with the given
    [speech_final]. *)
Definition segment (text : jsstring) (fin : bool) : TranscriptionEvent :=
  {| type := str "Results"; is_final := true; speech_final := fin;
     transcript := Some text |}.

(** The end-of-segment signal. *)
Definition utteranceEnd : TranscriptionEvent :=
  {| type := str "UtteranceEnd"; is_final := false; speech_final := false;
     transcript := None |}.

(** [s] between double quotes. *)
Definition quoted (s : jsstring) : jsstring := [34%N] ++ s ++ [34%N].

(** The text of the JSON object with the one member a, of value 1. *)
Definition a1 : jsstring := str "{" ++ quoted (str "a") ++ str ":1}".

(** Two copies of it, one after the other. *)
Definition duplicated : jsstring := a1 ++ a1.

(** A manifest with one tool. *)
Definition lookupPrice : Tool :=
  {| tool_name := str "lookupPrice";
     say := str "Um momento, vou verificar o preco.";
     call := fun _ => Some (str "249") |}.

Definition manifest : list Tool := [lookupPrice].

Definition tool_delta (nm args : option jsstring) : Chunk :=
  {| delta_content := None;
     delta_tool_calls := Some {| tc_name := nm; tc_arguments := args |};
     finish_reason := None |}.

Definition text_delta (text : jsstring) : Chunk :=
  {| delta_content := Some text; delta_tool_calls := None;
     finish_reason := None |}.

Definition finish (r : FinishReason) : Chunk :=
  {| delta_content := None; delta_tool_calls := None;
     finish_reason := Some r |}.

(** A stream that calls lookupPrice with the arguments [args], streamed in
    two pieces. *)
Definition tool_call_stream (args : jsstring) : list Chunk :=
  [ tool_delta (Some (str "lookupPrice")) (Some []);
    tool_delta None (Some (firstn 1 args));
    tool_delta None (Some (skipn 1 args));
    finish tool_calls ].

(** A plain reply. *)
Definition reply_stream : list Chunk :=
  [ text_delta (str "O preco e 249 reais."); finish stop ].

(** A model that calls the tool, and replies in plain text once the log
    ends with a function turn. *)
Definition model (args : jsstring) (messages : list Message) : list Chunk :=
  match rev messages with
  | m :: _ =>
      match role m with
      | function => reply_stream
      | _ => tool_call_stream args
      end
  | [] => tool_call_stream args
  end.

(** A reply in two phrases, the first closed by the bullet. *)
Definition phrased_stream : list Chunk :=
  [ text_delta (str "Claro " ++ bullet);
    text_delta (str " qual modelo?");
    finish stop ].

(** A reply in one chunk that holds a bullet in its middle. *)
Definition unsplit_stream : list Chunk :=
  [ text_delta (str "Claro " ++ bullet ++ str " qual modelo?");
    finish stop ].

(** A connection with one mark outstanding. *)
Definition speaking : Connection :=
  {| streamSid := Some (str "MZ18ad3ab5a668481ce02b83e7395059f0");
     marks := [str "7c1b9c1e"];
     sent := [] |}.

End Samples.

(* ===================================================================== *)
(** ** app.js: from transcriptions to completions *)
(* ===================================================================== *)

Module Orchestrator.

Import GptService App.

(** The service and the counter of the connection. *)
Record Call := {
  gpt : State;
  interactionCount : nat
}.

(** [transcriptionService.on("transcription", ...)]: an empty text is
    dropped; otherwise [completion] is called with the current count, which
    is then incremented. The call is taken to run to its end before the
    next one starts; [Overlap.arrive] has the calls that do not. *)
Definition onTranscription (tools : list Tool) (marker : jsstring)
    (create : list Message -> list Chunk) (fuel : nat) (text : jsstring)
    (c : Call) : Call :=
  if negb (truthy text) then c
  else
    {| gpt := snd (completion tools marker create fuel text (interactionCount c)
                              user (str "user") (gpt c));
       interactionCount := interactionCount c + 1 |}.

(** The handler over the transcriptions of a call, in order. *)
Definition serve (tools : list Tool) (marker : jsstring)
    (create : list Message -> list Chunk) (fuel : nat) (texts : list jsstring)
    (c : Call) : Call :=
  fold_left (fun c text => onTranscription tools marker create fuel text c)
            texts c.

(** The mark case of the message handler over a sequence of marks. *)
Definition acknowledge (names : list jsstring) (c : Connection) : Connection :=
  fold_left (fun c n => onMark n c) names c.

(** The utterance handler over a sequence of interim texts. *)
Definition interrupt (texts : list (option jsstring)) (c : Connection)
  : Connection :=
  fold_left (fun c t => onUtterance t c) texts c.

(** [m] is none of [names]. *)
Definition unacknowledged (names : list jsstring) (m : jsstring) : bool :=
  forallb (fun n => negb (jseq m n)) names.

End Orchestrator.

(* ===================================================================== *)
(** ** More sample inputs *)
(* ===================================================================== *)

Module MoreSamples.

Import Json GptService Samples.

(** A tool whose function throws. *)
Definition brokenPrice : Tool :=
  {| tool_name := str "lookupPrice";
     say := str "Um momento, vou verificar o preco.";
     call := fun _ => None |}.

(** The text of the JSON object with the one member a, of value 2. *)
Definition a2 : jsstring := str "{" ++ quoted (str "a") ++ str ":2}".

End MoreSamples.

(* ===================================================================== *)
(** ** app.js: the prompt file *)
(* ===================================================================== *)

Module PromptFile.

Import Json.

(** The lower-case hexadecimal digit of [d], for [d] below 16. *)
Definition hex_digit (d : N) : char :=
  if (d <? 10)%N then (48 + d)%N else (87 + d)%N.

(** The escape [\uXXXX] of a code unit. *)
Definition unicode_escape (c : char) : jsstring :=
  [92; 117; hex_digit (((c / 16) / 16) / 16); hex_digit (((c / 16) / 16) mod 16);
   hex_digit ((c / 16) mod 16); hex_digit (c mod 16)]%N.

Definition is_high_surrogate (c : char) : bool :=
  ((55296 <=? c) && (c <=? 56319))%N.

Definition is_low_surrogate (c : char) : bool :=
  ((56320 <=? c) && (c <=? 57343))%N.

(** How [QuoteJSONString] writes a code unit that is no surrogate. *)
Definition quote_unit (c : char) : jsstring :=
  if (c =? 8)%N then [92; 98]%N
  else if (c =? 9)%N then [92; 116]%N
  else if (c =? 10)%N then [92; 110]%N
  else if (c =? 12)%N then [92; 102]%N
  else if (c =? 13)%N then [92; 114]%N
  else if (c =? 34)%N then [92; 34]%N
  else if (c =? 92)%N then [92; 92]%N
  else if (c <? 32)%N then unicode_escape c
  else [c].

(** The characters [QuoteJSONString] writes between the quotes: a surrogate
    pair is kept, a lone surrogate is escaped. *)
Fixpoint quote_chars (s : jsstring) : jsstring :=
  match s with
  | [] => []
  | c :: s' =>
      if is_high_surrogate c then
        match s' with
        | d :: s'' =>
            if is_low_surrogate d then c :: d :: quote_chars s''
            else unicode_escape c ++ quote_chars s'
        | [] => unicode_escape c
        end
      else if is_low_surrogate c then unicode_escape c ++ quote_chars s'
      else quote_unit c ++ quote_chars s'
  end.

(** [JSON.stringify(s)] for a string ([QuoteJSONString] of ECMA-262). *)
Definition quote (s : jsstring) : jsstring := [34%N] ++ quote_chars s ++ [34%N].

(** [JSON.stringify({system_prompt, assistant_prompt}, null, 2)] for two
    strings. *)
Definition stringify_prompts (system_prompt assistant_prompt : jsstring)
  : jsstring :=
  str "{" ++ [10%N] ++ str "  " ++ quote (str "system_prompt") ++ str ": "
  ++ quote system_prompt ++ str "," ++ [10%N] ++ str "  "
  ++ quote (str "assistant_prompt") ++ str ": " ++ quote assistant_prompt
  ++ [10%N] ++ str "}".

(** The string of a field that is present. *)
Definition or_default (x : option jsstring) : jsstring :=
  match x with Some s => s | None => [] end.

(** The body of a request to POST /api/prompt whose two fields are strings
    or absent, as the dashboard sends it. *)
Record PromptBody := {
  system_prompt : option jsstring;
  assistant_prompt : option jsstring
}.

(** What a handler answers. *)
Inductive Response :=
| SendText (status : N) (text : jsstring)   (* res.status(n).send(text) *)
| SendJson (status : N) (body : json).      (* res.status(n).json(value) *)

(** [!x] for an optional string. *)
Definition missing (x : option jsstring) : bool :=
  match x with
  | Some s => negb (truthy s)
  | None => true
  end.

(** [app.post("/api/prompt", ...)] on the content of prompt.json ([None]
    when there is no file). The write is taken to succeed, and the file to
    keep the text it is given. *)
Definition postPrompt (body : PromptBody) (file : option jsstring)
  : Response * option jsstring :=
  if missing (system_prompt body) || missing (assistant_prompt body) then
    (SendText 400 (str "Both system_prompt and assistant_prompt are required."),
     file)
  else
    (SendText 200 (str "Prompt updated successfully."),
     Some (stringify_prompts (or_default (system_prompt body))
                             (or_default (assistant_prompt body)))).

(** [app.get("/api/prompt", ...)] *)
Definition getPrompt (file : option jsstring) : Response :=
  match file with
  | Some text =>
      match JSON_parse text with
      | Some v => SendJson 200 v
      | None => SendText 500 (str "Could not load prompt.")
      end
  | None => SendText 500 (str "Could not load prompt.")
  end.

End PromptFile.

(* ===================================================================== *)
(** ** services/transcription-service.js: how frames reach the listener *)
(* ===================================================================== *)

Module LiveConnection.

Import Js TranscriptionService.

(** The entries of [LiveTranscriptionEvents] that name frames. The live
    connection of the Deepgram SDK parses each frame it receives and emits
    it to the listeners registered under the entry whose string equals the
    frame's [type]; a frame of another type reaches no listener. ([Open],
    [Close], [Error] and [Warning] name no frame.) *)
Inductive LiveTranscriptionEvents :=
| Transcript
| Metadata
| UtteranceEnd
| SpeechStarted.

(** The string each entry stands for. *)
Definition name_of (e : LiveTranscriptionEvents) : jsstring :=
  match e with
  | Transcript => str "Results"
  | Metadata => str "Metadata"
  | UtteranceEnd => str "UtteranceEnd"
  | SpeechStarted => str "SpeechStarted"
  end.

(** The entry a frame is emitted under, if any. *)
Definition emitted_under (frame : TranscriptionEvent)
  : option LiveTranscriptionEvents :=
  if jseq (type frame) (name_of Metadata) then Some Metadata
  else if jseq (type frame) (name_of Transcript) then Some Transcript
  else if jseq (type frame) (name_of UtteranceEnd) then Some UtteranceEnd
  else if jseq (type frame) (name_of SpeechStarted) then Some SpeechStarted
  else None.

(** [setupEventListeners]: what the listener the service registers under an
    entry does to the service. The one of [Transcript] is [onTranscript],
    the one of [Metadata] writes to the console only, and none is
    registered under [UtteranceEnd] or [SpeechStarted]. *)
Definition listener (e : LiveTranscriptionEvents)
  : option (State -> TranscriptionEvent -> State * list Emitted) :=
  match e with
  | Transcript => Some onTranscript
  | Metadata => Some (fun s _ => (s, []))
  | UtteranceEnd => None
  | SpeechStarted => None
  end.

(** A frame arrives on the connection. *)
Definition onMessage (s : State) (frame : TranscriptionEvent)
  : State * list Emitted :=
  match emitted_under frame with
  | Some e =>
      match listener e with
      | Some handle => handle s frame
      | None => (s, [])
      end
  | None => (s, [])
  end.

(** The frames of a connection, in order, collecting what the service
    emits. *)
Fixpoint receive (s : State) (frames : list TranscriptionEvent)
  : State * list Emitted :=
  match frames with
  | [] => (s, [])
  | frame :: frames' =>
      let '(s1, out1) := onMessage s frame in
      let '(s2, out2) := receive s1 frames' in
      (s2, out1 ++ out2)
  end.

(** The frame is one the [Transcript] listener is called with. *)
Definition is_transcript (frame : TranscriptionEvent) : bool :=
  jseq (type frame) (name_of Transcript).

End LiveConnection.

(* ===================================================================== *)
(** ** app.js and services/gpt-service.js: completions that overlap *)
(* ===================================================================== *)

Module Overlap.

Import Js GptService Samples.

(** A call of [completion] that the transcription handler of app.js has
    started; the handler does not await it. The call is suspended at an
    [await]: [pending] holds the chunks its stream has yet to deliver,
    [locals] the variables of the call, [count] the interaction count it
    was given; [settled] is the outcome once the call has ended. *)
Record InFlight := {
  count : nat;
  locals : Locals;
  pending : list Chunk;
  settled : option Outcome
}.

Section Overlap.

Variable tools : list Tool.
Variable marker : jsstring.
Variable create : list Message -> list Chunk.

(** [completion(text, interactionCount)] up to its first suspension: the
    user turn is pushed and the request made. *)
Definition start (text : jsstring) (interactionCount : nat) (st : State)
  : InFlight * State :=
  let st1 := updateUserContext (str "user") user text st in
  ({| count := interactionCount; locals := locals0;
      pending := create (userContext st1); settled := None |},
   record (Create (userContext st1)) st1).

(** The call resumes once: on the next chunk of its stream it runs the loop
    body and suspends again, or ends if the body throws; at the end of the
    stream it runs the two statements after the loop and ends. A nested
    call made by the tool branch is run to its end within the resumption;
    [fuel] bounds its depth. A call that has ended does nothing. *)
Definition resume (fuel : nat) (c : InFlight) (st : State)
  : InFlight * State :=
  match settled c with
  | Some _ => (c, st)
  | None =>
      match pending c with
      | [] =>
          let st4 := push {| role := assistant; name := None;
                             content := completeResponse (locals c) |} st in
          ({| count := count c; locals := locals c; pending := [];
              settled := Some Returned |},
           record (ContextLength (length (userContext st4))) st4)
      | chunk :: rest =>
          match body tools marker (completion tools marker create fuel)
                     (count c) chunk (locals c) st with
          | (Returned, (l', st')) =>
              ({| count := count c; locals := l'; pending := rest;
                  settled := None |}, st')
          | (o, (l', st')) =>
              ({| count := count c; locals := l'; pending := rest;
                  settled := Some o |}, st')
          end
      end
  end.

(** [n] resumptions of one call in a row. *)
Fixpoint resume_times (fuel : nat) (n : nat) (c : InFlight) (st : State)
  : InFlight * State :=
  match n with
  | O => (c, st)
  | S n' =>
      let '(c', st') := resume fuel c st in resume_times fuel n' c' st'
  end.

(** The [k]-th of the calls resumes. *)
Fixpoint deliver (fuel : nat) (k : nat) (cs : list InFlight) (st : State)
  {struct cs} : list InFlight * State :=
  match cs, k with
  | [], _ => ([], st)
  | c :: cs', O => let '(c', st') := resume fuel c st in (c' :: cs', st')
  | c :: cs', S k' =>
      let '(cs'', st') := deliver fuel k' cs' st in (c :: cs'', st')
  end.

(** One connection: the service, the counter of the connection and the
    calls started so far, in the order of their start. *)
Record Server := {
  service : State;
  interactionCount : nat;
  calls : list InFlight
}.

(** What the event loop runs next: the transcription handler, on a text, or
    the resumption of one of the calls. *)
Inductive Arrival :=
| Transcribed (text : jsstring)
| Chunked (k : nat).

(** [transcriptionService.on("transcription", ...)] of app.js, which starts
    a call and increments the counter without waiting for the call, and the
    resumption of a call. *)
Definition arrive (fuel : nat) (s : Server) (a : Arrival) : Server :=
  match a with
  | Transcribed text =>
      if negb (truthy text) then s
      else
        let '(c, st) := start text (interactionCount s) (service s) in
        {| service := st;
           interactionCount := interactionCount s + 1;
           calls := calls s ++ [c] |}
  | Chunked k =>
      let '(cs, st) := deliver fuel k (calls s) (service s) in
      {| service := st;
         interactionCount := interactionCount s;
         calls := cs |}
  end.

Definition arrive_all (fuel : nat) (s : Server) (arrivals : list Arrival)
  : Server :=
  fold_left (arrive fuel) arrivals s.

End Overlap.

(** The indexed fragments of the turn [ic] in a trace: their indices, in
    emission order. *)
Fixpoint turn_indices (ic : nat) (t : list Event) : list nat :=
  match t with
  | GptReply (Some i) _ n :: t' =>
      if Nat.eqb n ic then i :: turn_indices ic t' else turn_indices ic t'
  | _ :: t' => turn_indices ic t'
  | [] => []
  end.

(** A connection on which nothing has been said yet. *)
Definition fresh : Server :=
  {| service := constructor None; interactionCount := 0; calls := [] |}.

(** A stream that carries the finish reason stop twice. *)
Definition twice_stopped_stream : list Chunk :=
  [ text_delta (str "Claro."); finish stop;
    text_delta (str " Qual modelo?"); finish stop ].


End Overlap.

(* ===================================================================== *)
(** * Properties *)
(* ===================================================================== *)

Module JsFacts.

Lemma jseq_refl (a : jsstring) : jseq a a = true.
Proof.
  induction a as [|x a IH]; simpl; [reflexivity|].
  now rewrite N.eqb_refl.
Qed.

Lemma jseq_eq (a b : jsstring) : jseq a b = true <-> a = b.
Proof.
  split; [|intros ->; apply jseq_refl].
  revert b; induction a as [|x a IH]; intros [|y b]; simpl; try discriminate; auto.
  intros H. apply andb_true_iff in H as [Hx Hr].
  apply N.eqb_eq in Hx. f_equal; auto.
Qed.

Lemma jseq_neq (a b : jsstring) : jseq a b = false <-> a <> b.
Proof.
  split.
  - intros H E. apply jseq_eq in E. congruence.
  - intros H. destruct (jseq a b) eqn:E; [|reflexivity].
    apply jseq_eq in E. contradiction.
Qed.

Lemma length_pos (s : jsstring) : (0 <? jslength s)%Z = true <-> s <> [].
Proof.
  unfold jslength. destruct s as [|c s]; split; intros H.
  - discriminate H.
  - now contradiction H.
  - discriminate.
  - reflexivity.
Qed.

Lemma length_zero (s : jsstring) : (0 <? jslength s)%Z = false <-> s = [].
Proof.
  unfold jslength. destruct s as [|c s]; split; intros H.
  - reflexivity.
  - reflexivity.
  - discriminate H.
  - discriminate H.
Qed.

Example trim_both_ends : trim (str "  a b " ++ [10%N]) = str "a b".
Proof. reflexivity. Qed.

Example indexOf_brace : indexOf (str "{x}{y}") (str "{") = 0%Z.
Proof. reflexivity. Qed.

Example lastIndexOf_brace : lastIndexOf (str "{x}{y}") (str "{") = 3%Z.
Proof. reflexivity. Qed.

Example indexOf_absent : indexOf (str "abc") (str "}") = (-1)%Z.
Proof. reflexivity. Qed.

Example substring_first_object :
  substring (str "{x}{y}") 0 3 = str "{x}".
Proof. reflexivity. Qed.

(** [s.slice(-1)] holds at most one code unit. *)
Lemma slice_last_length (s : jsstring) : length (slice s (-1)) <= 1.
Proof.
  unfold slice, jslength. cbn [Z.ltb Z.compare].
  rewrite length_skipn. lia.
Qed.

(** [s.slice(-1)] of a string that ends with [c]. *)
Lemma slice_last_snoc (pre : jsstring) (c : char) :
  slice (pre ++ [c]) (-1) = [c].
Proof.
  unfold slice, jslength. cbn [Z.ltb Z.compare].
  rewrite length_app. cbn [length].
  replace (Z.to_nat (Z.max (Z.of_nat (length pre + 1) + -1) 0))
    with (length pre) by lia.
  rewrite skipn_app, skipn_all, Nat.sub_diag. reflexivity.
Qed.

Lemma slice_last_inv (s : jsstring) (c : char) :
  slice s (-1) = [c] -> exists pre, s = pre ++ [c].
Proof.
  unfold slice. intros H.
  eexists. rewrite <- H. symmetry. apply firstn_skipn.
Qed.

End JsFacts.

(* --------------------------------------------------------------------- *)
(** ** JSON.parse never runs out of its budget *)
(* --------------------------------------------------------------------- *)

Module JsonFacts.

Import Json.

Lemma skip_ws_length (s : jsstring) : length (skip_ws s) <= length s.
Proof.
  induction s as [|c s IH]; simpl; [lia|].
  destruct (is_ws c); simpl; lia.
Qed.

Lemma skip_ws_eq (s r : jsstring) : skip_ws s = r -> length r <= length s.
Proof. intros <-. apply skip_ws_length. Qed.

Lemma string_chars_bounded (n : nat) : forall s acc,
  length s <= n ->
  string_chars s acc <> Cutoff /\
  forall v r, string_chars s acc = Ok v r -> length r < length s.
Proof.
  induction n as [|n IH]; intros s acc Hn.
  - destruct s; [|simpl in Hn; lia]. simpl. split; [discriminate|discriminate].
  - destruct s as [|c s1]; [simpl; split; discriminate|].
    simpl in Hn. cbn [string_chars].
    destruct (c =? 34)%N.
    { split; [discriminate|]. intros v r [= _ <-]. simpl. lia. }
    destruct (c =? 92)%N.
    { destruct s1 as [|e s2]; [split; discriminate|].
      simpl in Hn.
      destruct (e =? 117)%N.
      - destruct s2 as [|h1 [|h2 [|h3 [|h4 s3]]]]; try (split; discriminate).
        simpl in Hn.
        destruct (hex4 h1 h2 h3 h4) as [u|]; [|split; discriminate].
        destruct (IH s3 (u :: acc)) as [Hc Hr]; [lia|].
        split; [exact Hc|]. intros v r H. apply Hr in H. simpl. lia.
      - destruct (escape e) as [u|]; [|split; discriminate].
        destruct (IH s2 (u :: acc)) as [Hc Hr]; [lia|].
        split; [exact Hc|]. intros v r H. apply Hr in H. simpl. lia. }
    destruct (c <? 32)%N; [split; discriminate|].
    destruct (IH s1 (c :: acc)) as [Hc Hr]; [lia|].
    split; [exact Hc|]. intros v r H. apply Hr in H. simpl. lia.
Qed.

Lemma string_chars_no_cutoff (s acc : jsstring) : string_chars s acc <> Cutoff.
Proof. apply (string_chars_bounded (n := length s)). lia. Qed.

Lemma string_chars_consumes (s acc v r : jsstring) :
  string_chars s acc = Ok v r -> length r < length s.
Proof. apply (string_chars_bounded (n := length s)). lia. Qed.

Lemma span_digits_length (s : jsstring) :
  length (snd (span_digits s)) <= length s.
Proof.
  induction s as [|c s IH]; simpl; [lia|].
  destruct (is_digit c); [|simpl; lia].
  destruct (span_digits s) as [ds r]. simpl in *. lia.
Qed.

Lemma span_digits_eq (s r : jsstring) (ds : list N) :
  span_digits s = (ds, r) -> length r <= length s.
Proof. intros H. pose proof (span_digits_length s) as L. now rewrite H in L. Qed.

Lemma fraction_bounded (s : jsstring) :
  fraction s <> Cutoff /\
  forall fs r, fraction s = Ok fs r -> length r <= length s.
Proof.
  unfold fraction. destruct s as [|c s1]; [split; [discriminate|]|].
  { intros fs r [= _ <-]. lia. }
  destruct (c =? 46)%N.
  - destruct (span_digits s1) as [[|d ds] r0] eqn:E; [split; discriminate|].
    apply span_digits_eq in E.
    split; [discriminate|]. intros fs r [= _ <-]. simpl. lia.
  - split; [discriminate|]. intros fs r [= _ <-]. lia.
Qed.

Lemma exponent_part_bounded (s : jsstring) :
  exponent_part s <> Cutoff /\
  forall e r, exponent_part s = Ok e r -> length r <= length s.
Proof.
  unfold exponent_part. destruct s as [|c s1]; [split; [discriminate|]|].
  { intros e r [= _ <-]. lia. }
  destruct ((c =? 101) || (c =? 69))%N.
  - destruct (match s1 with [] => _ | _ => _ end) as [neg s2] eqn:Es.
    assert (Hs : length s2 <= length s1).
    { destruct s1 as [|g s1']; [injection Es as _ <-; lia|].
      destruct (g =? 45)%N; [injection Es as _ <-; simpl; lia|].
      destruct (g =? 43)%N; injection Es as _ <-; simpl; lia. }
    clear Es.
    destruct (span_digits s2) as [[|d ds] r0] eqn:E; [split; discriminate|].
    apply span_digits_eq in E.
    split; [discriminate|]. intros e r [= _ <-]. simpl. lia.
  - split; [discriminate|]. intros e r [= _ <-]. lia.
Qed.

Lemma number_bounded (s : jsstring) :
  number s <> Cutoff /\
  forall v r, number s = Ok v r -> length r < length s.
Proof.
  unfold number.
  destruct (match s with [] => _ | _ => _ end) as [neg s1] eqn:Es.
  assert (Hs : length s1 <= length s).
  { destruct s as [|c s']; [injection Es as _ <-; lia|].
    destruct (c =? 45)%N; injection Es as _ <-; simpl; lia. }
  clear Es.
  destruct s1 as [|d s2]; [split; discriminate|]. simpl in Hs.
  destruct (is_digit d); [|split; discriminate].
  destruct (if (d =? 48)%N then _ else _) as [ints s3] eqn:Ei.
  assert (Hi : length s3 <= length s2).
  { destruct (d =? 48)%N; [injection Ei as _ <-; lia|].
    destruct (span_digits s2) as [ds r0] eqn:E. apply span_digits_eq in E.
    injection Ei as _ <-. exact E. }
  clear Ei.
  destruct (fraction_bounded s3) as [Hfc Hfr].
  destruct (fraction s3) as [fs s4| |] eqn:Ef; [|split; discriminate|congruence].
  specialize (Hfr fs s4 eq_refl).
  destruct (exponent_part_bounded s4) as [Hec Her].
  destruct (exponent_part s4) as [e s5| |] eqn:Ee; [|split; discriminate|congruence].
  specialize (Her e s5 eq_refl).
  split; [discriminate|]. intros v r [= _ <-]. lia.
Qed.

Lemma keyword_bounded (word : jsstring) (v : json) (s : jsstring) :
  word <> [] ->
  keyword word v s <> Cutoff /\
  forall v' r, keyword word v s = Ok v' r -> length r < length s.
Proof.
  intros Hw. unfold keyword.
  destruct (startsWith word s) eqn:E; [|split; discriminate].
  split; [discriminate|]. intros v' r [= _ <-].
  rewrite length_skipn.
  destruct word as [|w word]; [congruence|].
  destruct s as [|c s]; [discriminate E|]. simpl. lia.
Qed.

Lemma value_unfold (f : nat) (s : jsstring) :
  value (S f) s =
    match skip_ws s with
    | [] => SyntaxError
    | c :: s1 =>
        if (c =? 123)%N then
          match skip_ws s1 with
          | c' :: s2 =>
              if (c' =? 125)%N then Ok (JObject []) s2
              else members f (c' :: s2) []
          | [] => SyntaxError
          end
        else if (c =? 91)%N then
          match skip_ws s1 with
          | c' :: s2 =>
              if (c' =? 93)%N then Ok (JArray []) s2
              else elements f (c' :: s2) []
          | [] => SyntaxError
          end
        else if (c =? 34)%N then
          match string_chars s1 [] with
          | Ok lit r => Ok (JString lit) r
          | SyntaxError => SyntaxError
          | Cutoff => Cutoff
          end
        else if (c =? 116)%N then keyword (str "true") (JBool true) (c :: s1)
        else if (c =? 102)%N then keyword (str "false") (JBool false) (c :: s1)
        else if (c =? 110)%N then keyword (str "null") JNull (c :: s1)
        else number (c :: s1)
    end.
Proof. reflexivity. Qed.

Lemma elements_unfold (f : nat) (s : jsstring) (acc : list json) :
  elements (S f) s acc =
    match value f s with
    | Ok v r =>
        match skip_ws r with
        | c :: r1 =>
            if (c =? 44)%N then elements f r1 (v :: acc)
            else if (c =? 93)%N then Ok (JArray (rev (v :: acc))) r1
            else SyntaxError
        | [] => SyntaxError
        end
    | SyntaxError => SyntaxError
    | Cutoff => Cutoff
    end.
Proof. reflexivity. Qed.

Lemma members_unfold (f : nat) (s : jsstring) (acc : list (jsstring * json)) :
  members (S f) s acc =
    match skip_ws s with
    | c :: s1 =>
        if (c =? 34)%N then
          match string_chars s1 [] with
          | Ok key r =>
              match skip_ws r with
              | c1 :: r1 =>
                  if (c1 =? 58)%N then
                    match value f r1 with
                    | Ok v r2 =>
                        match skip_ws r2 with
                        | c2 :: r3 =>
                            if (c2 =? 44)%N then
                              members f r3 ((key, v) :: acc)
                            else if (c2 =? 125)%N then
                              Ok (JObject (rev ((key, v) :: acc))) r3
                            else SyntaxError
                        | [] => SyntaxError
                        end
                    | SyntaxError => SyntaxError
                    | Cutoff => Cutoff
                    end
                  else SyntaxError
              | [] => SyntaxError
              end
          | SyntaxError => SyntaxError
          | Cutoff => Cutoff
          end
        else SyntaxError
    | [] => SyntaxError
    end.
Proof. reflexivity. Qed.

(** Case analysis on the next test the parser makes. *)
Ltac next_case H :=
  match type of H with
  | context [match ?x with _ => _ end] => destruct x eqn:?
  end; try discriminate H.

(** The lengths the hypotheses in the context give. *)
Ltac lengths :=
  repeat match goal with
  | H : skip_ws _ = _ |- _ => apply skip_ws_eq in H
  | H : string_chars _ _ = Ok _ _ |- _ => apply string_chars_consumes in H
  | H : keyword ?w ?v ?s = Ok _ _ |- _ =>
      apply (proj2 (@keyword_bounded w v s ltac:(discriminate))) in H
  | H : number _ = Ok _ _ |- _ => apply (proj2 (number_bounded _)) in H
  | H : Ok _ _ = Ok _ _ |- _ => injection H as ? ?; subst
  end;
  cbn [length] in *.

Lemma consuming_all (fuel : nat) : consuming fuel.
Proof.
  induction fuel as [|f (IHv & IHe & IHm)]; [repeat split; discriminate|].
  repeat split.
  - intros s v r H. rewrite value_unfold in H.
    repeat next_case H;
      try (apply IHm in H); try (apply IHe in H); lengths; lia.
  - intros s acc v r H. rewrite elements_unfold in H.
    repeat next_case H;
      try (apply IHe in H);
      repeat match goal with E : value f _ = Ok _ _ |- _ => apply IHv in E end;
      lengths; lia.
  - intros s acc v r H. rewrite members_unfold in H.
    repeat next_case H;
      try (apply IHm in H);
      repeat match goal with E : value f _ = Ok _ _ |- _ => apply IHv in E end;
      lengths; lia.
Qed.

Lemma value_consumes (fuel : nat) (s : jsstring) (v : json) (r : jsstring) :
  value fuel s = Ok v r -> length r < length s.
Proof. apply consuming_all. Qed.

Ltac no_cutoff :=
  match goal with
  | H : string_chars _ _ = Cutoff |- _ =>
      now apply string_chars_no_cutoff in H
  | H : number _ = Cutoff |- _ => now apply (proj1 (number_bounded _)) in H
  | H : keyword ?w ?v ?s = Cutoff |- _ =>
      now apply (proj1 (@keyword_bounded w v s ltac:(discriminate))) in H
  end.

Lemma funded_all (fuel : nat) : funded fuel.
Proof.
  induction fuel as [|f (IHv & IHe & IHm)]; [repeat split; simpl; intros; lia|].
  repeat split.
  - intros s Hf H. rewrite value_unfold in H.
    repeat next_case H; try no_cutoff.
    + apply IHm in H; [exact H|]. lengths. lia.
    + apply IHe in H; [exact H|]. lengths. lia.
  - intros s acc Hf H. rewrite elements_unfold in H.
    repeat next_case H.
    + apply IHe in H; [exact H|].
      match goal with E : value f _ = Ok _ _ |- _ => apply value_consumes in E end.
      lengths. lia.
    + match goal with E : value f _ = Cutoff |- _ => apply IHv in E; [exact E|lia] end.
  - intros s acc Hf H. rewrite members_unfold in H.
    repeat next_case H; try no_cutoff.
    + apply IHm in H; [exact H|].
      match goal with E : value f _ = Ok _ _ |- _ => apply value_consumes in E end.
      lengths. lia.
    + match goal with E : value f _ = Cutoff |- _ => apply IHv in E; [exact E|] end.
      lengths. lia.
Qed.

(** The budget of [JSON_parse] is never used up: when it gives [None], the
    text is not one JSON value. *)
Lemma value_fuel (text : jsstring) : value (budget text) text <> Cutoff.
Proof. apply funded_all. unfold budget. lia. Qed.

Example parse_nested :
  JSON_parse (str " [1, 2.5e3, -0.25, true, null, [], {}] ") =
    Some (JArray [JNumber 1 0; JNumber 25 2; JNumber (-25) (-2); JBool true;
                  JNull; JArray []; JObject []]).
Proof. vm_compute. reflexivity. Qed.

Example parse_escapes :
  JSON_parse ([34; 92; 117] ++ str "20ac" ++ [92; 110; 34])%N =
    Some (JString [8364; 10]%N).
Proof. vm_compute. reflexivity. Qed.

Example parse_rejects_trailing_comma : JSON_parse (str "[1,]") = None.
Proof. vm_compute. reflexivity. Qed.

Example parse_rejects_leading_zero : JSON_parse (str "01") = None.
Proof. vm_compute. reflexivity. Qed.

Example parse_rejects_open_brackets : JSON_parse (str "[[[[[[") = None.
Proof. vm_compute. reflexivity. Qed.

Example parse_rejects_empty : JSON_parse [] = None.
Proof. vm_compute. reflexivity. Qed.

End JsonFacts.

(* --------------------------------------------------------------------- *)
(** ** TranscriptFinalizer: the transcript listener *)
(* --------------------------------------------------------------------- *)

Module TranscriptFinalizer.

Import TranscriptionService JsFacts Samples.

(** A final segment that is not the end of speech is appended to the
    accumulator and nothing is emitted. *)
Lemma onTranscript_pending (s : State) (ev : TranscriptionEvent) :
  final_segment ev -> speech_final ev = false ->
  onTranscript s ev =
    ({| finalResult := finalResult s ++ text_of ev ++ str " ";
        speechFinal := false |}, []).
Proof.
  intros (Ht & Hf & Hne) Hsf. unfold onTranscript.
  unfold is_results in Ht. rewrite Ht, Hf, Hsf.
  apply length_pos in Hne. now rewrite Hne.
Qed.

(** A final segment that ends the speech emits the accumulator with the
    segment appended, and clears it. *)
Lemma onTranscript_speech_final (s : State) (ev : TranscriptionEvent) :
  final_segment ev -> speech_final ev = true ->
  onTranscript s ev =
    ({| finalResult := []; speechFinal := true |},
     [Transcription (finalResult s ++ text_of ev ++ str " ")]).
Proof.
  intros (Ht & Hf & Hne) Hsf. unfold onTranscript.
  unfold is_results in Ht. rewrite Ht, Hf, Hsf.
  apply length_pos in Hne. now rewrite Hne.
Qed.

Lemma joined_app (a b : list TranscriptionEvent) :
  joined (a ++ b) = joined a ++ joined b.
Proof. unfold joined. now rewrite map_app, concat_app. Qed.

(** Pending segments only grow the accumulator. *)
Lemma run_pending (evs : list TranscriptionEvent) : forall s,
  Forall (fun ev => final_segment ev /\ speech_final ev = false) evs ->
  exists s', run s evs = (s', []) /\
             finalResult s' = finalResult s ++ joined evs.
Proof.
  induction evs as [|ev evs IH]; intros s Hall.
  - exists s. simpl. now rewrite app_nil_r.
  - inversion Hall as [|? ? [Hseg Hsf] Hrest]; subst.
    destruct (IH {| finalResult := finalResult s ++ text_of ev ++ str " ";
                    speechFinal := false |} Hrest) as (s' & Hrun & Hacc).
    exists s'. simpl run. rewrite (onTranscript_pending s Hseg Hsf), Hrun.
    split; [reflexivity|].
    rewrite Hacc. simpl finalResult. unfold joined. simpl.
    now rewrite <- !app_assoc.
Qed.

Lemma run_app (a b : list TranscriptionEvent) (s : State) :
  run s (a ++ b) =
    let '(s1, out1) := run s a in
    let '(s2, out2) := run s1 b in
    (s2, out1 ++ out2).
Proof.
  revert s; induction a as [|ev a IH]; intros s; simpl.
  - now destruct (run s b).
  - destruct (onTranscript s ev) as [s1 o1]. rewrite IH.
    destruct (run s1 a) as [s2 o2]. destruct (run s2 b) as [s3 o3].
    now rewrite app_assoc.
Qed.

(** Every final segment that carries [speech_final] emits one
    "transcription", and the others none. *)
Lemma run_one_per_speech_final (evs : list TranscriptionEvent) : forall s,
  Forall final_segment evs ->
  length (snd (run s evs)) = length (filter speech_final evs).
Proof.
  induction evs as [|ev evs IH]; intros s Hall; [reflexivity|].
  inversion Hall as [|? ? Hseg Hrest]; subst. simpl run. simpl filter.
  destruct (speech_final ev) eqn:Hsf.
  - rewrite (onTranscript_speech_final s Hseg Hsf).
    specialize (IH {| finalResult := []; speechFinal := true |} Hrest).
    destruct (run _ evs) as [s2 out2]. simpl in *. now rewrite IH.
  - rewrite (onTranscript_pending s Hseg Hsf).
    specialize (IH {| finalResult := finalResult s ++ text_of ev ++ str " ";
                      speechFinal := false |} Hrest).
    destruct (run _ evs) as [s2 out2]. simpl in *. exact IH.
Qed.

(** C1 (as amended). For every sequence of transcript events that are all
    final with a transcript that is non-empty after trimming whitespace,
    where the last one (and only it) carries [speech_final], the listener
    emits exactly one "transcription" and the accumulator is empty
    afterwards. The text emitted is what the accumulator held at the start
    followed by the concatenation, in arrival order, of the transcripts each
    followed by one space; so from an empty accumulator, as after
    construction or after any emission, it is exactly that concatenation. *)
Theorem C1_speech_final_emits_concatenation
    (pre : list TranscriptionEvent) (lst : TranscriptionEvent) (s : State) :
  Forall (fun ev => final_segment ev /\ speech_final ev = false) pre ->
  final_segment lst -> speech_final lst = true ->
  run s (pre ++ [lst]) =
    ({| finalResult := []; speechFinal := true |},
     [Transcription (finalResult s ++ joined (pre ++ [lst]))]).
Proof.
  intros Hpre Hseg Hsf.
  destruct (run_pending s Hpre) as (s' & Hrun & Hacc).
  rewrite run_app, Hrun. simpl run.
  rewrite (onTranscript_speech_final s' Hseg Hsf).
  rewrite Hacc, joined_app. simpl.
  assert (Hone : joined [lst] = text_of lst ++ str " ").
  { unfold joined. simpl. now rewrite app_nil_r. }
  now rewrite Hone, <- app_assoc.
Qed.

Lemma C1_witness :
  run init [segment (str "quero") false; segment (str "dois airpods") true] =
    ({| finalResult := []; speechFinal := true |},
     [Transcription (str "quero dois airpods ")]).
Proof.
  apply (@C1_speech_final_emits_concatenation
           [segment (str "quero") false] (segment (str "dois airpods") true) init).
  - repeat constructor; simpl; discriminate.
  - repeat constructor; simpl; discriminate.
  - reflexivity.
Defined.

(** C1 as stated fails on a transcript that is non-empty but blank: a final,
    speech-final event whose transcript is one space emits nothing. *)
Lemma C1_counterexample_blank_transcript :
  let ev := segment (str " ") true in
  (final_nonempty ev /\ speech_final ev = true) /\
  run init [ev] = (init, []).
Proof.
  simpl. repeat split; simpl; discriminate.
Qed.

(** The branch of the listener for the end-of-segment signal, taken by
    itself. Were [onTranscript] called with such an event while the flag is
    false and the accumulator is non-empty, it would emit one
    "transcription" carrying the accumulated text and clear the accumulator;
    further such events directly after it, or one in a state whose
    accumulator is empty, would do nothing. *)
Lemma utterance_end_branch
    (s : State) (ev : TranscriptionEvent) (more : list TranscriptionEvent) :
  is_utterance_end ev -> Forall is_utterance_end more ->
  speechFinal s = false -> finalResult s <> [] ->
  onTranscript s ev =
    ({| finalResult := []; speechFinal := false |},
     [Transcription (finalResult s)]) /\
  run s (ev :: more) =
    ({| finalResult := []; speechFinal := false |},
     [Transcription (finalResult s)]) /\
  (forall idle, finalResult idle = [] -> onTranscript idle ev = (idle, [])).
Proof.
  intros Hev Hmore Hflag Hacc.
  assert (Hstep : onTranscript s ev =
    ({| finalResult := []; speechFinal := false |},
     [Transcription (finalResult s)])).
  { unfold onTranscript. unfold is_utterance_end in Hev. rewrite Hev, Hflag.
    apply length_pos in Hacc. now rewrite Hacc. }
  split; [exact Hstep|].
  simpl run. rewrite Hstep.
  assert (Hidle : run {| finalResult := []; speechFinal := false |} more =
                  ({| finalResult := []; speechFinal := false |}, [])).
  { clear -Hmore. induction more as [|e more IH]; [reflexivity|].
    inversion Hmore as [|? ? He Hrest]; subst. simpl run.
    unfold onTranscript at 1. unfold is_utterance_end in He. rewrite He.
    simpl. now rewrite (IH Hrest). }
  split; [now rewrite Hidle|].
  intros idle Hidle0. unfold onTranscript. unfold is_utterance_end in Hev.
  rewrite Hev, Hidle0. now rewrite andb_false_r.
Qed.

Import LiveConnection.

(** An end-of-segment frame is emitted under [UtteranceEnd]. *)
Lemma emitted_under_utterance_end (frame : TranscriptionEvent) :
  is_utterance_end frame -> emitted_under frame = Some UtteranceEnd.
Proof.
  unfold is_utterance_end, emitted_under. intros H.
  apply jseq_eq in H. rewrite H. reflexivity.
Qed.

(** It reaches no listener: the service is left as it is and emits
    nothing. *)
Lemma utterance_end_reaches_no_listener
    (s : State) (frame : TranscriptionEvent) :
  is_utterance_end frame -> onMessage s frame = (s, []).
Proof.
  intros H. unfold onMessage.
  now rewrite (emitted_under_utterance_end H).
Qed.

(** A frame of type "Results" reaches [onTranscript], and only such a frame
    does. *)
Lemma transcript_frames_reach_the_listener
    (s : State) (frame : TranscriptionEvent) :
  onMessage s frame =
    if is_transcript frame then onTranscript s frame else (s, []).
Proof.
  unfold onMessage, emitted_under, is_transcript.
  destruct (jseq (type frame) (name_of Metadata)) eqn:Hm.
  - apply jseq_eq in Hm. rewrite Hm. reflexivity.
  - destruct (jseq (type frame) (name_of Transcript)); [reflexivity|].
    destruct (jseq (type frame) (name_of UtteranceEnd)); [reflexivity|].
    destruct (jseq (type frame) (name_of SpeechStarted)); reflexivity.
Qed.

(** What the service does on the frames of a connection is what the
    listener does on those of type "Results". *)
Lemma receive_is_run_on_transcripts (frames : list TranscriptionEvent) :
  forall s, receive s frames = run s (filter is_transcript frames).
Proof.
  induction frames as [|frame frames IH]; intros s; [reflexivity|].
  simpl receive. rewrite transcript_frames_reach_the_listener. simpl filter.
  destruct (is_transcript frame).
  - simpl run. destruct (onTranscript s frame) as [s1 out1]. now rewrite IH.
  - rewrite IH. now destruct (run s (filter is_transcript frames)).
Qed.

(** C2. The fallback finalization does not happen in the service as it is
    wired. The branch that implements it sits in the listener registered
    under [Transcript], and an end-of-segment frame is emitted under
    [UtteranceEnd], for which [setupEventListeners] registers no listener.
    So in every state of the service, the one with the flag false and text
    in the accumulator included, end-of-segment frames emit nothing and
    leave the accumulator as it is. *)
Theorem C2_utterance_end_frames_are_dropped
    (s : State) (frames : list TranscriptionEvent) :
  Forall is_utterance_end frames ->
  receive s frames = (s, []).
Proof.
  induction 1 as [|frame frames Hframe _ IH]; [reflexivity|].
  simpl receive. rewrite (utterance_end_reaches_no_listener s Hframe).
  now rewrite IH.
Qed.

Lemma C2_frames_are_dropped_witness :
  receive {| finalResult := str "quero dois "; speechFinal := false |}
          [utteranceEnd; utteranceEnd] =
    ({| finalResult := str "quero dois "; speechFinal := false |}, []).
Proof.
  apply (@C2_utterance_end_frames_are_dropped
           {| finalResult := str "quero dois "; speechFinal := false |}
           [utteranceEnd; utteranceEnd]).
  repeat constructor.
Defined.

(** On a connection: a final segment without [speech_final] leaves its text
    pending, the end-of-segment frames that follow do not emit it, whereas
    the listener called on the same events by hand would; the text is
    emitted only with the next segment that carries [speech_final]. *)
Lemma fallback_never_fires :
  receive init [segment (str "quero dois") false; utteranceEnd] =
    ({| finalResult := str "quero dois "; speechFinal := false |}, []) /\
  run init [segment (str "quero dois") false; utteranceEnd] =
    ({| finalResult := []; speechFinal := false |},
     [Transcription (str "quero dois ")]) /\
  receive init [segment (str "quero dois") false; utteranceEnd;
                segment (str "celulares") true] =
    ({| finalResult := []; speechFinal := true |},
     [Transcription (str "quero dois celulares ")]).
Proof. repeat split; vm_compute; reflexivity. Qed.

End TranscriptFinalizer.


(* --------------------------------------------------------------------- *)
(** ** ConversationAgent: the log and the fragment counter *)
(* --------------------------------------------------------------------- *)

Module ConversationAgent.

Import Json GptService JsFacts.

Lemma indices_app (a b : list Event) : indices (a ++ b) = indices a ++ indices b.
Proof.
  induction a as [|e a IH]; [reflexivity|].
  destruct e as [[i|] ? ?| | | |]; simpl; now rewrite IH.
Qed.

Lemma grows_refl (st : State) : grows st st.
Proof.
  repeat split.
  - exists []. now rewrite app_nil_r.
  - exists []. rewrite app_nil_r, Nat.sub_diag. now split.
  - lia.
Qed.

Lemma grows_trans (a b c : State) : grows a b -> grows b c -> grows a c.
Proof.
  intros ((k1 & Hk1) & (t1 & Ht1 & Hi1) & Hle1) ((k2 & Hk2) & (t2 & Ht2 & Hi2) & Hle2).
  repeat split.
  - exists (k1 ++ k2). now rewrite Hk2, Hk1, app_assoc.
  - exists (t1 ++ t2). split; [now rewrite Ht2, Ht1, app_assoc|].
    rewrite indices_app, Hi1, Hi2.
    replace (partialResponseIndex c - partialResponseIndex a)
      with ((partialResponseIndex b - partialResponseIndex a) +
            (partialResponseIndex c - partialResponseIndex b)) by lia.
    rewrite seq_app. do 2 f_equal. lia.
  - lia.
Qed.

(** Recording anything but an indexed fragment. *)
Lemma grows_record (e : Event) (st : State) :
  indices [e] = [] -> grows st (record e st).
Proof.
  intros He. repeat split; simpl.
  - exists []. now rewrite app_nil_r.
  - exists [e]. now rewrite Nat.sub_diag.
  - lia.
Qed.

Lemma grows_push (m : Message) (st : State) : grows st (push m st).
Proof.
  repeat split; simpl.
  - now exists [m].
  - exists []. now rewrite app_nil_r, Nat.sub_diag.
  - lia.
Qed.

Lemma grows_updateUserContext (nm : jsstring) (r : Role) (text : jsstring)
    (st : State) :
  grows st (updateUserContext nm r text st).
Proof. unfold updateUserContext. destruct (negb _); apply grows_push. Qed.

Lemma grows_setCallSid (sid : jsstring) (st : State) :
  grows st (setCallSid sid st).
Proof. apply grows_push. Qed.

Lemma grows_validateFunctionArgs (args : jsstring) (st : State) :
  grows st (snd (validateFunctionArgs args st)).
Proof.
  unfold validateFunctionArgs.
  destruct (JSON_parse args); [apply grows_refl|].
  destruct (negb _); [destruct (JSON_parse _)|]; now apply grows_record.
Qed.

Section Completion.

Variable tools : list Tool.
Variable marker : jsstring.
Variable create : list Message -> list Chunk.

Lemma grows_text_branch (ic : nat) (text : jsstring) (l : Locals) (st : State) :
  grows st (snd (text_branch marker ic text l st)).
Proof.
  unfold text_branch. destruct (emits_fragment _ _ _); [|apply grows_refl].
  repeat split; cbn [userContext trace partialResponseIndex snd].
  - exists []. now rewrite app_nil_r.
  - eexists. split; [reflexivity|].
    replace (S (partialResponseIndex st) - partialResponseIndex st) with 1 by lia.
    reflexivity.
  - lia.
Qed.

Lemma grows_tool_branch (again : Again) (ic : nat) (l : Locals) (st : State) :
  (forall text n r nm s, grows s (snd (again text n r nm s))) ->
  grows st (snd (tool_branch tools again ic l st)).
Proof.
  intros Hagain. unfold tool_branch.
  pose proof (grows_validateFunctionArgs (functionArgs l) st) as Hv.
  destruct (validateFunctionArgs (functionArgs l) st) as [[e|args] st1];
    simpl in Hv; [exact Hv|].
  destruct (find_tool tools (functionName l)) as [t|]; [|exact Hv].
  set (st2 := record (GptReply None (say t) ic) st1).
  set (st3 := record (Called (functionName l) args) st2).
  assert (H3 : grows st st3).
  { eapply grows_trans; [exact Hv|].
    eapply grows_trans; now apply grows_record. }
  destruct (call t args) as [resp|]; [|exact H3].
  eapply grows_trans; [exact H3|].
  eapply grows_trans; [apply grows_updateUserContext|apply Hagain].
Qed.

Lemma grows_body (again : Again) (ic : nat) (chunk : Chunk) (l : Locals)
    (st : State) :
  (forall text n r nm s, grows s (snd (again text n r nm s))) ->
  grows st (snd (snd (body tools marker again ic chunk l st))).
Proof.
  intros Hagain. unfold body.
  destruct (is_tool_calls _).
  - pose proof (@grows_tool_branch again ic (collected chunk l) st Hagain) as H.
    now destruct (tool_branch _ _ _ _ _).
  - apply grows_text_branch.
Qed.

Lemma grows_for_await (again : Again) (ic : nat) (stream : list Chunk) :
  (forall text n r nm s, grows s (snd (again text n r nm s))) ->
  forall l st,
    grows st (snd (snd (for_await tools marker again ic stream l st))).
Proof.
  intros Hagain. induction stream as [|chunk rest IH]; intros l st; simpl.
  - apply grows_refl.
  - pose proof (@grows_body again ic chunk l st Hagain) as Hb.
    destruct (body _ _ _ _ _ _ _) as [[| |] [l' st']]; simpl in *;
      try exact Hb.
    eapply grows_trans; [exact Hb|apply IH].
Qed.

(** Whatever the model streams and however the call ends, [completion] only
    appends to the log and to the trace, and numbers its fragments with the
    consecutive values of the counter. *)
Lemma grows_completion (fuel : nat) :
  forall text ic r nm st,
    grows st (snd (completion tools marker create fuel text ic r nm st)).
Proof.
  induction fuel as [|fuel IH]; intros text ic r nm st; simpl.
  - apply grows_refl.
  - set (st1 := updateUserContext nm r text st).
    set (st2 := record (Create (userContext st1)) st1).
    assert (H2 : grows st st2).
    { eapply grows_trans; [apply grows_updateUserContext|].
      now apply grows_record. }
    pose proof (@grows_for_await (completion tools marker create fuel) ic
                  (create (userContext st1)) IH locals0 st2) as Hf.
    destruct (for_await _ _ _ _ _ _ _) as [[| |] [l st3]]; simpl in *;
      try (eapply grows_trans; [exact H2|exact Hf]).
    eapply grows_trans; [exact H2|].
    eapply grows_trans; [exact Hf|].
    eapply grows_trans; [apply grows_push|]. now apply grows_record.
Qed.

Lemma grows_perform (fuel : nat) (op : Op) (st : State) :
  grows st (perform tools marker create fuel op st).
Proof.
  destruct op as [sid|text ic]; simpl.
  - apply grows_setCallSid.
  - apply grows_completion.
Qed.

Lemma grows_perform_all (fuel : nat) (ops : list Op) : forall st,
  grows st (perform_all tools marker create fuel ops st).
Proof.
  induction ops as [|op ops IH]; intros st; simpl.
  - apply grows_refl.
  - eapply grows_trans; [apply grows_perform|apply IH].
Qed.

Lemma perform_all_app (fuel : nat) (a b : list Op) (st : State) :
  perform_all tools marker create fuel (a ++ b) st =
  perform_all tools marker create fuel b
              (perform_all tools marker create fuel a st).
Proof. unfold perform_all. now rewrite fold_left_app. Qed.

Lemma completion_unfold (fuel : nat) (text : jsstring) (ic : nat) (r : Role)
    (nm : jsstring) (st : State) :
  completion tools marker create (S fuel) text ic r nm st =
    let st1 := updateUserContext nm r text st in
    let st2 := record (Create (userContext st1)) st1 in
    match for_await tools marker (completion tools marker create fuel) ic
                    (create (userContext st1)) locals0 st2 with
    | (Returned, (l, st3)) =>
        let st4 := push {| role := assistant; name := None;
                           content := completeResponse l |} st3 in
        (Returned, record (ContextLength (length (userContext st4))) st4)
    | (o, (_, st3)) => (o, st3)
    end.
Proof. reflexivity. Qed.

(** *** More fuel changes nothing once a call is not cut off *)

Lemma tool_branch_agrees (a b : Again) (ic : nat) (l : Locals) (st : State)
    (o : Outcome) (st' : State) :
  agrees a b ->
  tool_branch tools a ic l st = (o, st') -> o <> Cutoff ->
  tool_branch tools b ic l st = (o, st').
Proof.
  intros Hab. unfold tool_branch.
  destruct (validateFunctionArgs (functionArgs l) st) as [[e|args] st1]; auto.
  destruct (find_tool tools (functionName l)) as [t|]; auto.
  destruct (call t args) as [response|]; [apply Hab|auto].
Qed.

Lemma body_agrees (a b : Again) (ic : nat) (chunk : Chunk) (l : Locals)
    (st : State) (o : Outcome) (res : Locals * State) :
  agrees a b ->
  body tools marker a ic chunk l st = (o, res) -> o <> Cutoff ->
  body tools marker b ic chunk l st = (o, res).
Proof.
  intros Hab. unfold body. destruct (is_tool_calls _); auto.
  destruct (tool_branch tools a ic (collected chunk l) st) as [o1 st1] eqn:E.
  intros [= <- <-] Ho.
  now rewrite (tool_branch_agrees ic (collected chunk l) st Hab E Ho).
Qed.

Lemma for_await_agrees (a b : Again) (ic : nat) (stream : list Chunk) :
  agrees a b ->
  forall l st o res,
    for_await tools marker a ic stream l st = (o, res) -> o <> Cutoff ->
    for_await tools marker b ic stream l st = (o, res).
Proof.
  intros Hab. induction stream as [|chunk rest IH]; intros l st o res; simpl.
  - auto.
  - destruct (body tools marker a ic chunk l st) as [o1 [l1 st1]] eqn:E.
    intros H Ho.
    assert (Ho1 : o1 <> Cutoff).
    { intros ->. injection H as <- _. congruence. }
    rewrite (body_agrees ic chunk l st Hab E Ho1).
    destruct o1 as [|e|]; [now apply IH|exact H|exact H].
Qed.

Lemma completion_fuel (fuel extra : nat) :
  agrees (completion tools marker create fuel)
         (completion tools marker create (fuel + extra)).
Proof.
  induction fuel as [|fuel IH]; intros text ic r nm st o st' H Ho.
  - simpl in H. injection H as <- _. congruence.
  - change (S fuel + extra) with (S (fuel + extra)).
    rewrite completion_unfold in *. cbv zeta in *.
    set (st1 := updateUserContext nm r text st) in *.
    set (st2 := record (Create (userContext st1)) st1) in *.
    destruct (for_await tools marker (completion tools marker create fuel) ic
                        (create (userContext st1)) locals0 st2)
      as [o1 [l1 st3]] eqn:E.
    assert (Ho1 : o1 <> Cutoff).
    { intros ->. injection H as <- _. congruence. }
    now rewrite (for_await_agrees ic (create (userContext st1)) IH
                                  locals0 st2 E Ho1).
Qed.

Lemma completion_more_fuel (fuel extra : nat) (text : jsstring) (ic : nat)
    (r : Role) (nm : jsstring) (st : State) :
  fst (completion tools marker create fuel text ic r nm st) <> Cutoff ->
  completion tools marker create (fuel + extra) text ic r nm st =
  completion tools marker create fuel text ic r nm st.
Proof.
  intros H.
  destruct (completion tools marker create fuel text ic r nm st)
    as [o st'] eqn:E.
  exact (@completion_fuel fuel extra text ic r nm st o st' E H).
Qed.

(** One call of [completion] taken by itself, together with the nested
    calls its tool branch makes and with no other call running in between:
    the fragments that carry an index carry consecutive ones, in emission
    order. They are the counter's value at the start of the call, then that
    plus one, and so on, however the call ends, and the counter ends right
    after the last of them. Fragments with a null index (announcements) are
    not counted. *)
Lemma completion_indices_consecutive
    (fuel : nat) (text : jsstring) (ic : nat) (r : Role) (nm : jsstring)
    (st : State) :
  exists emitted : list Event,
    trace (snd (completion tools marker create fuel text ic r nm st)) =
      trace st ++ emitted /\
    indices emitted =
      seq (partialResponseIndex st) (length (indices emitted)) /\
    partialResponseIndex
      (snd (completion tools marker create fuel text ic r nm st)) =
      partialResponseIndex st + length (indices emitted).
Proof.
  destruct (grows_completion fuel text ic r nm st) as (_ & (t & Ht & Hi) & Hle).
  exists t. split; [exact Ht|].
  rewrite Hi, length_seq. split; [reflexivity|lia].
Qed.

(** C9. The dialogue log only grows. The constructor seeds it; from any
    state, [setCallSid] and [completion] (with any role and name, so also
    the nested calls of the tool branch, and however the call ends) leave
    the earlier log as a prefix of the later one; so along any sequence of
    calls the log after the first part is a prefix of the log after the
    whole. *)
Theorem C9_log_append_only :
  (forall sid st, exists k,
      userContext (setCallSid sid st) = userContext st ++ k) /\
  (forall fuel text ic r nm st, exists k,
      userContext (snd (completion tools marker create fuel text ic r nm st)) =
        userContext st ++ k) /\
  (forall fuel ops1 ops2 st, exists k,
      userContext (perform_all tools marker create fuel (ops1 ++ ops2) st) =
        userContext (perform_all tools marker create fuel ops1 st) ++ k) /\
  (forall file fuel ops, exists k,
      userContext (perform_all tools marker create fuel ops (constructor file)) =
        loadPromptFromFile file ++ k).
Proof.
  repeat split.
  - intros sid st. apply (grows_setCallSid sid st).
  - intros fuel text ic r nm st. apply (grows_completion fuel text ic r nm st).
  - intros fuel ops1 ops2 st. rewrite perform_all_app.
    apply (grows_perform_all fuel ops2).
  - intros file fuel ops.
    apply (grows_perform_all fuel ops (constructor file)).
Qed.

(** C10. The fragment counter is 0 after construction, no call ever lowers
    it, and nothing resets it between turns: over a whole call (any sequence
    of [setCallSid] and [completion] calls after construction) the indexed
    fragments carry 0, 1, 2, ... up to the final counter, so a later turn
    continues where the earlier one stopped. *)
Theorem C10_counter_never_reset :
  (forall file, partialResponseIndex (constructor file) = 0) /\
  (forall fuel op st,
      partialResponseIndex st <=
      partialResponseIndex (perform tools marker create fuel op st)) /\
  (forall file fuel ops,
      let st := perform_all tools marker create fuel ops (constructor file) in
      indices (trace st) = seq 0 (partialResponseIndex st)) /\
  (forall fuel ops op st,
      let before := perform_all tools marker create fuel ops st in
      let after := perform tools marker create fuel op before in
      exists emitted,
        trace after = trace before ++ emitted /\
        indices emitted =
          seq (partialResponseIndex before) (length (indices emitted))).
Proof.
  repeat split.
  - intros fuel op st. apply (grows_perform fuel op st).
  - intros file fuel ops st.
    destruct (grows_perform_all fuel ops (constructor file))
      as (_ & (t & Ht & Hi) & _).
    fold st in Ht, Hi. simpl in Ht, Hi. rewrite Ht.
    now rewrite Hi, Nat.sub_0_r.
  - intros fuel ops op st before after.
    destruct (grows_perform fuel op before) as (_ & (t & Ht & Hi) & _).
    exists t. split; [exact Ht|].
    rewrite Hi at 2. now rewrite length_seq.
Qed.

Lemma for_await_app (again : Again) (ic : nat) (pre rest : list Chunk) :
  forall l st,
    for_await tools marker again ic (pre ++ rest) l st =
      match for_await tools marker again ic pre l st with
      | (Returned, (l', st')) => for_await tools marker again ic rest l' st'
      | stopped => stopped
      end.
Proof.
  induction pre as [|chunk pre IH]; intros l st; [reflexivity|].
  simpl. destruct (body _ _ _ _ _ _ _) as [[| |] [l' st']]; auto.
Qed.

Lemma finishReason_collected (chunk : Chunk) (l : Locals) :
  finishReason (collected chunk l) = finish_reason chunk.
Proof. unfold collected. now destruct (delta_tool_calls chunk). Qed.

(** The message [updateUserContext] appends. *)
Lemma userContext_updateUserContext (nm : jsstring) (r : Role)
    (text : jsstring) (st : State) :
  userContext (updateUserContext nm r text st) =
    userContext st ++
    [{| role := r;
        name := if jseq nm (str "user") then None else Some nm;
        content := text |}].
Proof. unfold updateUserContext. now destruct (jseq nm (str "user")). Qed.

(** A call of [completion] that is not cut off at once starts by appending
    its input to the log. *)
Lemma completion_appends_input (fuel : nat) (text : jsstring) (ic : nat)
    (r : Role) (nm : jsstring) (st : State) :
  exists k,
    userContext (snd (completion tools marker create (S fuel) text ic r nm st)) =
      userContext st ++
      {| role := r;
         name := if jseq nm (str "user") then None else Some nm;
         content := text |} :: k.
Proof.
  rewrite completion_unfold. cbv zeta.
  set (st1 := updateUserContext nm r text st).
  set (st2 := record (Create (userContext st1)) st1).
  assert (Hrest : exists k, forall o l st3,
    for_await tools marker (completion tools marker create fuel) ic
              (create (userContext st1)) locals0 st2 = (o, (l, st3)) ->
    userContext st3 = userContext st1 ++ k).
  { destruct (@grows_for_await (completion tools marker create fuel) ic
                (create (userContext st1)) (grows_completion fuel) locals0 st2)
      as ((k & Hk) & _).
    exists k. intros o l st3 E. now rewrite E in Hk. }
  destruct Hrest as (k & Hk).
  destruct (for_await _ _ _ _ _ _ _) as [o [l st3]] eqn:E.
  specialize (Hk o l st3 eq_refl).
  unfold st1 in Hk. rewrite userContext_updateUserContext in Hk.
  destruct o; cbn [snd userContext record push]; rewrite Hk, <- !app_assoc;
    eexists; simpl; reflexivity.
Qed.

(** The tool branch on arguments that parse, for a tool of the manifest
    whose function returns: the announcement is emitted, then the function
    is called, then its response is appended as a function turn, and
    [completion] is called once more, on that response. *)
Lemma tool_branch_valid (again : Again) (ic : nat) (l : Locals) (st : State)
    (t : Tool) (v : json) (response : jsstring) :
  JSON_parse (functionArgs l) = Some v ->
  find_tool tools (functionName l) = Some t ->
  call t (Some v) = Some response ->
  tool_branch tools again ic l st =
    again response ic function (functionName l)
      (updateUserContext (functionName l) function response
         (record (Called (functionName l) (Some v))
            (record (GptReply None (say t) ic) st))).
Proof.
  intros Hparse Hfind Hcall. unfold tool_branch, validateFunctionArgs.
  now rewrite Hparse, Hfind, Hcall.
Qed.

(** So one tool call leaves the tool's response in the log twice: the turn
    the branch appends itself, and the turn the nested [completion] appends
    for its input. *)
Lemma tool_branch_appends_response_twice (fuel ic : nat) (l : Locals)
    (st : State) (t : Tool) (v : json) (response : jsstring) :
  JSON_parse (functionArgs l) = Some v ->
  find_tool tools (functionName l) = Some t ->
  call t (Some v) = Some response ->
  let turn := {| role := function;
                 name := if jseq (functionName l) (str "user") then None
                         else Some (functionName l);
                 content := response |} in
  exists k,
    userContext
      (snd (tool_branch tools (completion tools marker create (S fuel)) ic l st)) =
    userContext st ++ turn :: turn :: k.
Proof.
  intros Hparse Hfind Hcall turn.
  rewrite (tool_branch_valid _ ic l st Hparse Hfind Hcall).
  destruct (completion_appends_input fuel response ic function (functionName l)
              (updateUserContext (functionName l) function response
                 (record (Called (functionName l) (Some v))
                    (record (GptReply None (say t) ic) st)))) as (k & Hk).
  exists k. rewrite Hk, userContext_updateUserContext.
  cbn [userContext record]. now rewrite <- app_assoc.
Qed.

(** Arguments that fail to parse the second time too make
    [validateFunctionArgs] throw, after the warning was logged. *)
Lemma validateFunctionArgs_unrecoverable (args : jsstring) (st : State) :
  unrecoverable args ->
  validateFunctionArgs args st = (inl SyntaxError, record (Warned args) st).
Proof.
  intros (H1 & H2 & H3). unfold validateFunctionArgs. rewrite H1.
  apply Z.eqb_neq in H2. now rewrite H2, H3.
Qed.

(** Arguments that fail to parse and hold at most one opening brace give
    [undefined], after the warning was logged. *)
Lemma validateFunctionArgs_unattempted (args : jsstring) (st : State) :
  unattempted args ->
  validateFunctionArgs args st = (inr None, record (Warned args) st).
Proof.
  intros (H1 & H2). unfold validateFunctionArgs. rewrite H1.
  apply Z.eqb_eq in H2. now rewrite H2.
Qed.

(** In that case the tool is called all the same, on [undefined]. *)
Lemma tool_branch_unattempted (again : Again) (ic : nat) (l : Locals)
    (st : State) (t : Tool) (response : jsstring) :
  unattempted (functionArgs l) ->
  find_tool tools (functionName l) = Some t ->
  call t None = Some response ->
  tool_branch tools again ic l st =
    again response ic function (functionName l)
      (updateUserContext (functionName l) function response
         (record (Called (functionName l) None)
            (record (GptReply None (say t) ic)
               (record (Warned (functionArgs l)) st)))).
Proof.
  intros Hun Hfind Hcall. unfold tool_branch.
  now rewrite (validateFunctionArgs_unattempted st Hun), Hfind, Hcall.
Qed.

(** C5. Arguments beyond recovery are not suppressed: they end the call
    with an error. Let the stream of a [completion] reach, without a throw,
    a chunk with the finish reason tool_calls, and let the arguments
    collected so far fail to parse as JSON and the recovery re-parse, which
    [validateFunctionArgs] runs inside its catch block with nothing around
    it, fail as well. Then the failure is logged, the tool function is not
    called, no announcement is emitted and no turn is appended to the log:
    the state is the one before the chunk plus the warning. But
    [completion] ends there by throwing the SyntaxError of the re-parse,
    where arguments for which no recovery is attempted make
    [validateFunctionArgs] return undefined without a throw. *)
Theorem C5_unrecoverable_arguments_throw
    (fuel : nat) (text : jsstring) (ic : nat) (r : Role) (nm : jsstring)
    (st : State) (pre : list Chunk) (chunk : Chunk) (rest : list Chunk)
    (l : Locals) (st' : State) :
  let st1 := updateUserContext nm r text st in
  create (userContext st1) = pre ++ chunk :: rest ->
  for_await tools marker (completion tools marker create fuel) ic pre locals0
            (record (Create (userContext st1)) st1) = (Returned, (l, st')) ->
  finish_reason chunk = Some tool_calls ->
  unrecoverable (functionArgs (collected chunk l)) ->
  completion tools marker create (S fuel) text ic r nm st =
    (Threw SyntaxError,
     record (Warned (functionArgs (collected chunk l))) st').
Proof.
  intros st1 Hstream Hpre Hfin Hun.
  rewrite completion_unfold. fold st1. cbv zeta.
  rewrite Hstream, for_await_app, Hpre.
  cbn [for_await]. unfold body.
  rewrite finishReason_collected, Hfin. cbn [is_tool_calls].
  unfold tool_branch.
  now rewrite (validateFunctionArgs_unrecoverable st' Hun).
Qed.

End Completion.

Import Samples.

Lemma C5_witness :
  completion manifest garbled_bullet (model (str "{x}{y}")) 2
             (str "quanto custa?") 0 user (str "user") (constructor None) =
    (Threw SyntaxError,
     record (Warned (str "{x}{y}"))
       (record (Create (loadPromptFromFile None ++
                        [{| role := user; name := None;
                            content := str "quanto custa?" |}]))
          (updateUserContext (str "user") user (str "quanto custa?")
                             (constructor None)))).
Proof.
  apply (@C5_unrecoverable_arguments_throw
           manifest garbled_bullet (model (str "{x}{y}")) 1
           (str "quanto custa?") 0 user (str "user") (constructor None)
           (firstn 3 (tool_call_stream (str "{x}{y}")))
           (finish tool_calls) []
           {| completeResponse := []; partialResponse := [];
              functionName := str "lookupPrice";
              functionArgs := str "{x}{y}"; finishReason := None |}).
  - reflexivity.
  - reflexivity.
  - reflexivity.
  - repeat split; vm_compute; congruence.
Defined.

(** C5 at a concrete call: on the arguments made of two opening braces
    both parses fail, and the error is raised to the caller of
    [completion]. *)
Lemma C5_counterexample_error_raised :
  unrecoverable (str "{{") /\
  fst (completion manifest garbled_bullet (model (str "{{")) 2
                  (str "quanto custa?") 0 user (str "user") (constructor None))
    = Threw SyntaxError.
Proof.
  split; [repeat split; vm_compute; congruence|].
  vm_compute. reflexivity.
Qed.

(** C3 at a concrete round trip: the model calls lookupPrice with valid
    arguments and then answers in plain text. The announcement is emitted
    before the tool is called and one follow-up request is made, but the log
    receives the tool's response in two function turns, not one (and an empty
    assistant turn from the outer call after the answer). Two nested calls
    are all it takes; a larger budget gives the same. *)
Theorem C3_round_trip_appends_two_function_turns (extra : nat) :
  let seed := loadPromptFromFile None in
  let ask := {| role := user; name := None; content := str "quanto custa?" |} in
  let fn := {| role := function; name := Some (str "lookupPrice");
               content := str "249" |} in
  let answer := str "O preco e 249 reais." in
  completion manifest garbled_bullet (model a1) (2 + extra)
             (str "quanto custa?") 0 user (str "user") (constructor None) =
    (Returned,
     {| userContext :=
          seed ++ [ask; fn; fn;
                   {| role := assistant; name := None; content := answer |};
                   {| role := assistant; name := None; content := [] |}];
        partialResponseIndex := 1;
        trace :=
          [Create (seed ++ [ask]);
           GptReply None (say lookupPrice) 0;
           Called (str "lookupPrice") (Some (JObject [(str "a", JNumber 1 0)]));
           Create (seed ++ [ask; fn; fn]);
           GptReply (Some 0) answer 0;
           ContextLength 6;
           ContextLength 7] |}).
Proof.
  cbv zeta. rewrite completion_more_fuel by (vm_compute; discriminate).
  vm_compute. reflexivity.
Qed.

(** C4. On the text of two copies of the object with member a of value 1,
    [validateFunctionArgs] logs the warning and returns the object parsed
    from the first copy; it does not throw. *)
Theorem C4_duplicated_arguments_recover (st : State) :
  JSON_parse duplicated = None /\
  validateFunctionArgs duplicated st =
    (inr (Some (JObject [(str "a", JNumber 1 0)])),
     record (Warned duplicated) st).
Proof.
  assert (H1 : JSON_parse duplicated = None) by (vm_compute; reflexivity).
  split; [exact H1|].
  unfold validateFunctionArgs. rewrite H1.
  replace (indexOf duplicated (str "{") =? lastIndexOf duplicated (str "{"))%Z
    with false by (vm_compute; reflexivity).
  cbn [negb].
  replace (JSON_parse (substring duplicated (indexOf duplicated [])
                                 (indexOf duplicated (str "}") + 1)%Z))
    with (Some (JObject [(str "a", JNumber 1 0)])) by (vm_compute; reflexivity).
  reflexivity.
Qed.

(* --------------------------------------------------------------------- *)
(** *** Fragments *)

Lemma is_stop_true (r : option FinishReason) :
  is_stop r = true <-> r = Some stop.
Proof.
  destruct r as [[]|]; simpl; split; intros H; congruence.
Qed.

(** With the literal of the current revision the comparison never holds:
    one code unit is never equal to three. *)
Lemma garbled_bullet_never_last (s : jsstring) :
  jseq (slice s (-1)) garbled_bullet = false.
Proof.
  apply jseq_neq. intros E.
  pose proof (slice_last_length s) as H. rewrite E in H. simpl in H. lia.
Qed.

(** So the current revision emits a fragment at normal completion only. *)
Lemma emits_fragment_garbled (text : jsstring) (l : Locals) :
  emits_fragment garbled_bullet text l = is_stop (finishReason l).
Proof. unfold emits_fragment. now rewrite garbled_bullet_never_last. Qed.

(** With the bullet as the literal a fragment is emitted exactly when the
    chunk's text, trimmed, ends with the bullet, or the finish reason is
    stop. *)
Lemma emits_fragment_bullet (text : jsstring) (l : Locals) :
  emits_fragment bullet text l = true <->
  (exists pre, trim text = pre ++ bullet) \/ finishReason l = Some stop.
Proof.
  unfold emits_fragment. rewrite orb_true_iff, jseq_eq, is_stop_true.
  split; intros [H|H]; auto; left.
  - now apply slice_last_inv.
  - destruct H as (pre & ->). apply slice_last_snoc.
Qed.

(** What the text branch does when it emits and when it does not. *)
Lemma text_branch_emits (marker : jsstring) (ic : nat) (text : jsstring)
    (l : Locals) (st : State) :
  emits_fragment marker text l = true ->
  partialResponse (fst (text_branch marker ic text l st)) = [] /\
  trace (snd (text_branch marker ic text l st)) =
    trace st ++ [GptReply (Some (partialResponseIndex st))
                          (partialResponse l ++ text) ic] /\
  partialResponseIndex (snd (text_branch marker ic text l st)) =
    S (partialResponseIndex st).
Proof. intros H. unfold text_branch. now rewrite H. Qed.

Lemma text_branch_holds (marker : jsstring) (ic : nat) (text : jsstring)
    (l : Locals) (st : State) :
  emits_fragment marker text l = false ->
  partialResponse (fst (text_branch marker ic text l st)) =
    partialResponse l ++ text /\
  snd (text_branch marker ic text l st) = st.
Proof. intros H. unfold text_branch. now rewrite H. Qed.

(** C6 at a concrete reply, in the current revision: the model streams
    "Claro " with the bullet after it, then " qual modelo?", then stops. The chunk that ends with
    the bullet emits nothing; the whole reply is emitted as one fragment at
    the end. *)
Theorem C6_current_revision_emits_one_fragment (extra : nat) :
  fragments
    (trace (snd (completion manifest garbled_bullet (fun _ => phrased_stream)
                            (1 + extra) (str "oi") 0 user (str "user")
                            (constructor None))))
  = [(Some 0, str "Claro " ++ bullet ++ str " qual modelo?")].
Proof.
  rewrite completion_more_fuel by (vm_compute; discriminate).
  vm_compute. reflexivity.
Qed.

(** The same reply in the earlier revision, whose literal is the bullet:
    two fragments. *)
Lemma earlier_revision_emits_two_fragments :
  fragments
    (trace (snd (completion manifest bullet (fun _ => phrased_stream) 1
                            (str "oi") 0 user (str "user") (constructor None))))
  = [(Some 0, str "Claro " ++ bullet); (Some 1, str " qual modelo?")].
Proof. vm_compute. reflexivity. Qed.

(** A bullet in the middle of a chunk splits nothing in either revision. *)
Lemma bullet_inside_chunk_is_not_split (marker : jsstring) :
  marker = bullet \/ marker = garbled_bullet ->
  fragments
    (trace (snd (completion manifest marker (fun _ => unsplit_stream) 1
                            (str "oi") 0 user (str "user") (constructor None))))
  = [(Some 0, str "Claro " ++ bullet ++ str " qual modelo?")].
Proof. intros [-> | ->]; vm_compute; reflexivity. Qed.

End ConversationAgent.

(* --------------------------------------------------------------------- *)
(** ** PlaybackSequencer: marks and interruption *)
(* --------------------------------------------------------------------- *)

Module PlaybackSequencer.

Import App JsFacts Samples.

(** C7 (as amended). When interim text arrives while at least one mark is
    outstanding and the text is longer than 5 code units, the handler sends
    exactly one "clear" message and leaves the marks as they are (a mark is
    removed only when the transport reports it, by name); when no mark is
    outstanding, or the text has 5 code units or fewer, or there is no text,
    nothing is sent and nothing changes. *)
Theorem C7_interruption_sends_one_clear (c : Connection) (t : jsstring) :
  (marks c <> [] -> (5 < jslength t)%Z ->
     onUtterance (Some t) c =
       {| streamSid := streamSid c;
          marks := marks c;
          sent := sent c ++ [Clear (streamSid c)] |}) /\
  (marks c = [] \/ (jslength t <= 5)%Z -> onUtterance (Some t) c = c) /\
  onUtterance None c = c.
Proof.
  unfold onUtterance, long_enough. repeat split.
  - intros Hm Ht. destruct (marks c) as [|m ms]; [contradiction|].
    apply Z.ltb_lt in Ht. now rewrite Ht.
  - intros [Hm|Ht].
    + now rewrite Hm.
    + apply Z.ltb_ge in Ht. rewrite Ht. now rewrite andb_false_r.
  - now rewrite andb_false_r.
Qed.

Lemma C7_witness :
  onUtterance (Some (str "espera um pouco")) speaking =
    {| streamSid := streamSid speaking;
       marks := marks speaking;
       sent := [Clear (streamSid speaking)] |} /\
  onUtterance (Some (str "hum")) speaking = speaking.
Proof.
  split.
  - apply (proj1 (C7_interruption_sends_one_clear speaking
                    (str "espera um pouco"))).
    + discriminate.
    + reflexivity.
  - apply (proj1 (proj2 (C7_interruption_sends_one_clear speaking (str "hum")))).
    right. discriminate.
Defined.

(** C7 as stated fails: after an interruption with one mark outstanding the
    mark is still there. *)
Lemma C7_counterexample_marks_kept :
  marks speaking <> [] /\
  (5 < jslength (str "espera um pouco"))%Z /\
  marks (onUtterance (Some (str "espera um pouco")) speaking) = marks speaking /\
  marks (onUtterance (Some (str "espera um pouco")) speaking) <> [].
Proof. repeat split; discriminate. Qed.

(** The marks go when the transport reports them. *)
Lemma onMark_removes (c : Connection) (m : jsstring) :
  ~ In m (marks (onMark m c)).
Proof.
  simpl. intros H. apply filter_In in H as [_ H].
  now rewrite jseq_refl in H.
Qed.

End PlaybackSequencer.

(* --------------------------------------------------------------------- *)
(** ** The transcript listener over whole event sequences *)
(* --------------------------------------------------------------------- *)

Module TranscriptRuns.

Import TranscriptionService TranscriptObservations JsFacts Samples.

Lemma transcriptions_app (a b : list Emitted) :
  transcriptions (a ++ b) = transcriptions a ++ transcriptions b.
Proof.
  induction a as [|[t|t] a IH]; simpl; [reflexivity| |exact IH].
  now rewrite IH.
Qed.

Lemma utterances_app (a b : list Emitted) :
  utterances (a ++ b) = utterances a ++ utterances b.
Proof.
  induction a as [|[t|t] a IH]; simpl; [reflexivity|exact IH|].
  now rewrite IH.
Qed.

(** The four ways one event is handled. *)
Lemma onTranscript_cases (s : State) (ev : TranscriptionEvent) :
  (utterance_end ev = true /\ speechFinal s = false /\ finalResult s <> [] /\
   onTranscript s ev =
     ({| finalResult := []; speechFinal := false |},
      [Transcription (finalResult s)])) \/
  (utterance_end ev = true /\ (speechFinal s = true \/ finalResult s = []) /\
   onTranscript s ev = (s, [])) \/
  (accepted ev = true /\ speech_final ev = true /\
   onTranscript s ev =
     ({| finalResult := []; speechFinal := true |},
      [Transcription (finalResult s ++ text_of ev ++ str " ")])) \/
  (accepted ev = true /\ speech_final ev = false /\
   onTranscript s ev =
     ({| finalResult := finalResult s ++ text_of ev ++ str " ";
         speechFinal := false |}, [])) \/
  (interim ev = true /\ onTranscript s ev = (s, [Utterance (text_of ev)])) \/
  (decisive ev = false /\ interim ev = false /\ onTranscript s ev = (s, [])).
Proof.
  unfold onTranscript, decisive, accepted, interim, utterance_end, nonblank.
  destruct (jseq (type ev) (str "UtteranceEnd")); simpl.
  - destruct (speechFinal s) eqn:Hf; simpl.
    + right; left. auto.
    + destruct (0 <? jslength (finalResult s))%Z eqn:Hl.
      * left. apply length_pos in Hl. auto.
      * right; left. apply length_zero in Hl. auto.
  - destruct (is_final ev); simpl;
      destruct (0 <? jslength (trim (text_of ev)))%Z; simpl.
    + destruct (speech_final ev); [right; right; left|right; right; right; left];
        auto.
    + do 5 right. auto.
    + do 4 right; left. auto.
    + do 5 right. auto.
Qed.

Lemma accepted_not_utterance_end (ev : TranscriptionEvent) :
  accepted ev = true -> utterance_end ev = false.
Proof.
  unfold accepted. destruct (utterance_end ev); [discriminate|reflexivity].
Qed.

Lemma interim_not_decisive (ev : TranscriptionEvent) :
  interim ev = true -> decisive ev = false.
Proof.
  unfold interim, decisive, accepted.
  destruct (utterance_end ev), (is_final ev); simpl; congruence.
Qed.

Lemma interim_not_accepted (ev : TranscriptionEvent) :
  interim ev = true -> accepted ev = false.
Proof.
  unfold interim, accepted.
  destruct (utterance_end ev), (is_final ev); simpl; congruence.
Qed.

Lemma utterance_end_not_accepted (ev : TranscriptionEvent) :
  utterance_end ev = true -> accepted ev = false.
Proof. unfold accepted. now intros ->. Qed.

Lemma utterance_end_not_interim (ev : TranscriptionEvent) :
  utterance_end ev = true -> interim ev = false.
Proof. unfold interim. now intros ->. Qed.

Lemma accepted_not_interim (ev : TranscriptionEvent) :
  accepted ev = true -> interim ev = false.
Proof.
  unfold interim, accepted.
  destruct (utterance_end ev), (is_final ev); simpl; congruence.
Qed.

(** Nothing accepted is lost, doubled or reordered: what was emitted as
    "transcription" so far, followed by what is still pending, is what was
    pending at the start followed by the accepted transcripts in arrival
    order, each with its separator. *)
Theorem accepted_text_is_conserved (evs : list TranscriptionEvent) :
  forall s,
    concat (transcriptions (snd (run s evs))) ++ finalResult (fst (run s evs)) =
    finalResult s ++ joined (filter accepted evs).
Proof.
  induction evs as [|ev evs IH]; intros s.
  - simpl. unfold joined. simpl. now rewrite app_nil_r.
  - simpl run.
    destruct (onTranscript s ev) as [s1 out1] eqn:E1.
    specialize (IH s1). destruct (run s1 evs) as [s2 out2].
    simpl fst in *. simpl snd in *.
    rewrite transcriptions_app, concat_app, <- app_assoc, IH. simpl filter.
    assert (Hone : forall e, joined (e :: filter accepted evs) =
                         (text_of e ++ str " ") ++ joined (filter accepted evs))
      by reflexivity.
    destruct (onTranscript_cases s ev)
      as [(Hu & _ & _ & E)|[(Hu & _ & E)|[(Ha & _ & E)|[(Ha & _ & E)|
          [(Hi & E)|(Hd & _ & E)]]]]];
      rewrite E in E1; injection E1 as <- <-; simpl.
    + rewrite (utterance_end_not_accepted _ Hu). now rewrite app_nil_r.
    + now rewrite (utterance_end_not_accepted _ Hu).
    + rewrite Ha, Hone, app_nil_r. now rewrite <- !app_assoc.
    + rewrite Ha, Hone. now rewrite <- !app_assoc.
    + now rewrite (interim_not_accepted _ Hi).
    + unfold decisive in Hd. apply orb_false_iff in Hd as [_ Ha]. now rewrite Ha.
Qed.

Lemma onTranscript_consistent (s : State) (ev : TranscriptionEvent) :
  consistent s -> consistent (fst (onTranscript s ev)).
Proof.
  intros Hs.
  destruct (onTranscript_cases s ev)
    as [(_ & _ & _ & E)|[(_ & _ & E)|[(_ & _ & E)|[(_ & _ & E)|
        [(_ & E)|(_ & _ & E)]]]]];
    rewrite E; simpl; try exact Hs; unfold consistent; simpl; congruence.
Qed.

Lemma run_consistent (evs : list TranscriptionEvent) : forall s,
  consistent s -> consistent (fst (run s evs)).
Proof.
  induction evs as [|ev evs IH]; intros s Hs; [exact Hs|].
  simpl run. pose proof (onTranscript_consistent ev Hs) as H1.
  destruct (onTranscript s ev) as [s1 out1]. simpl in H1.
  specialize (IH s1 H1). now destruct (run s1 evs).
Qed.

(** The flag and the accumulator stay in step on a connection: whatever
    frames have arrived since construction, whenever the flag is set
    nothing is pending. Text that waits in the accumulator therefore always
    waits with the flag false. *)
Theorem flag_set_only_when_nothing_pending
    (frames : list TranscriptionEvent) :
  speechFinal (fst (LiveConnection.receive init frames)) = true ->
  finalResult (fst (LiveConnection.receive init frames)) = [].
Proof.
  rewrite TranscriptFinalizer.receive_is_run_on_transcripts.
  apply run_consistent. unfold consistent, init. simpl. discriminate.
Qed.

Lemma flag_set_only_when_nothing_pending_witness :
  finalResult
    (fst (LiveConnection.receive init
            [segment (str "quero") false; utteranceEnd;
             segment (str "dois") true])) = [].
Proof.
  apply (@flag_set_only_when_nothing_pending
           [segment (str "quero") false; utteranceEnd;
            segment (str "dois") true]).
  reflexivity.
Defined.

(** Pending text ends with the separator or is empty. *)
Lemma pending_separated (evs : list TranscriptionEvent) : forall s,
  (finalResult s = [] \/ separated (finalResult s)) ->
  (finalResult (fst (run s evs)) = [] \/
   separated (finalResult (fst (run s evs)))) /\
  Forall separated (transcriptions (snd (run s evs))).
Proof.
  induction evs as [|ev evs IH]; intros s Hs; [simpl; auto|].
  simpl run.
  destruct (onTranscript s ev) as [s1 out1] eqn:E1.
  assert (H1 : (finalResult s1 = [] \/ separated (finalResult s1)) /\
               Forall separated (transcriptions out1)).
  { destruct (onTranscript_cases s ev)
      as [(_ & _ & Hne & E)|[(_ & _ & E)|[(_ & _ & E)|[(_ & _ & E)|
          [(_ & E)|(_ & _ & E)]]]]];
      rewrite E in E1; injection E1 as <- <-; simpl; auto.
    - split; [auto|]. constructor; [|constructor].
      destruct Hs as [Hs|Hs]; [contradiction|exact Hs].
    - split; [auto|]. constructor; [|constructor].
      exists (finalResult s ++ text_of ev). now rewrite <- app_assoc.
    - split; [|constructor]. right.
      exists (finalResult s ++ text_of ev). now rewrite <- app_assoc. }
  destruct H1 as [Hs1 Ho1]. destruct (IH s1 Hs1) as [Hs2 Ho2].
  destruct (run s1 evs) as [s2 out2]. simpl in *.
  split; [exact Hs2|]. rewrite transcriptions_app. apply Forall_app. auto.
Qed.

(** No "transcription" is ever empty, from whatever state; and since
    construction every one of them ends with the separator. *)
Theorem transcriptions_never_empty (evs : list TranscriptionEvent) :
  (forall s, Forall (fun t => t <> []) (transcriptions (snd (run s evs)))) /\
  Forall separated (transcriptions (snd (run init evs))).
Proof.
  split.
  - induction evs as [|ev evs IH]; intros s; [constructor|].
    simpl run. destruct (onTranscript s ev) as [s1 out1] eqn:E1.
    specialize (IH s1). destruct (run s1 evs) as [s2 out2]. simpl in *.
    rewrite transcriptions_app. apply Forall_app. split; [|exact IH].
    destruct (onTranscript_cases s ev)
      as [(_ & _ & Hne & E)|[(_ & _ & E)|[(_ & _ & E)|[(_ & _ & E)|
          [(_ & E)|(_ & _ & E)]]]]];
      rewrite E in E1; injection E1 as <- <-; simpl; constructor; auto.
    intros H. apply app_eq_nil in H as [_ H].
    apply app_eq_nil in H as [_ H]. discriminate H.
  - apply pending_separated. now left.
Qed.

(** Only end-of-segment signals and accepted segments bear on finalization:
    dropping every other event changes neither the "transcription" texts
    nor the final state. *)
Theorem finalization_ignores_other_events (evs : list TranscriptionEvent) :
  forall s,
    fst (run s (filter decisive evs)) = fst (run s evs) /\
    transcriptions (snd (run s (filter decisive evs))) =
      transcriptions (snd (run s evs)).
Proof.
  induction evs as [|ev evs IH]; intros s; [auto|].
  simpl filter. simpl run.
  destruct (onTranscript_cases s ev)
    as [(Hu & _ & _ & E)|[(Hu & _ & E)|[(Ha & _ & E)|[(Ha & _ & E)|
        [(Hi & E)|(Hd & _ & E)]]]]].
  1-4: assert (Hd : decisive ev = true)
         by (unfold decisive; rewrite ?Hu, ?Ha; auto using orb_true_r);
       rewrite Hd; simpl run; rewrite E;
       match goal with |- context [run ?s1 (filter decisive _)] =>
         destruct (IH s1) as [IH1 IH2] end;
       destruct (run _ (filter decisive evs)) as [s2 out2];
       destruct (run _ evs) as [s3 out3]; simpl in *;
       rewrite ?transcriptions_app; split; congruence.
  - rewrite (interim_not_decisive _ Hi), E.
    destruct (IH s) as [IH1 IH2].
    destruct (run s (filter decisive evs)) as [s2 out2].
    destruct (run s evs) as [s3 out3]. simpl in *. auto.
  - rewrite Hd, E.
    destruct (IH s) as [IH1 IH2].
    destruct (run s (filter decisive evs)) as [s2 out2].
    destruct (run s evs) as [s3 out3]. simpl in *. auto.
Qed.

(** The interim channel carries exactly the non-final, non-blank transcripts,
    untrimmed and in arrival order, whatever the state. *)
Theorem interim_channel (evs : list TranscriptionEvent) :
  forall s, utterances (snd (run s evs)) = map text_of (filter interim evs).
Proof.
  induction evs as [|ev evs IH]; intros s; [reflexivity|].
  simpl run. simpl filter.
  destruct (onTranscript s ev) as [s1 out1] eqn:E1.
  specialize (IH s1). destruct (run s1 evs) as [s2 out2]. simpl in *.
  rewrite utterances_app, IH.
  destruct (onTranscript_cases s ev)
    as [(Hu & _ & _ & E)|[(Hu & _ & E)|[(Ha & _ & E)|[(Ha & _ & E)|
        [(Hi & E)|(_ & Hi & E)]]]]];
    rewrite E in E1; injection E1 as <- <-; simpl.
  - now rewrite (utterance_end_not_interim _ Hu).
  - now rewrite (utterance_end_not_interim _ Hu).
  - now rewrite (accepted_not_interim _ Ha).
  - now rewrite (accepted_not_interim _ Ha).
  - now rewrite Hi.
  - now rewrite Hi.
Qed.

(** The two end-of-utterance signals never both fire: a segment that ends
    the speech emits once, and the end-of-segment signals that follow it
    emit nothing. *)
Theorem speech_final_then_utterance_end
    (s : State) (lst : TranscriptionEvent) (more : list TranscriptionEvent) :
  accepted lst = true -> speech_final lst = true ->
  forallb utterance_end more = true ->
  run s (lst :: more) =
    ({| finalResult := []; speechFinal := true |},
     [Transcription (finalResult s ++ text_of lst ++ str " ")]).
Proof.
  intros Ha Hsf Hmore. simpl run.
  destruct (onTranscript_cases s lst)
    as [(Hu & _)|[(Hu & _)|[(_ & _ & E)|[(_ & Hsf' & _)|
        [(Hi & _)|(Hd & _)]]]]].
  1-2: rewrite (utterance_end_not_accepted _ Hu) in Ha; discriminate.
  2: congruence.
  2: rewrite (accepted_not_interim _ Ha) in Hi; discriminate.
  2: unfold decisive in Hd; rewrite Ha, orb_true_r in Hd; discriminate.
  rewrite E.
  assert (Hidle : run {| finalResult := []; speechFinal := true |} more =
                  ({| finalResult := []; speechFinal := true |}, [])).
  { clear -Hmore. induction more as [|e more IH]; [reflexivity|].
    simpl in Hmore. apply andb_true_iff in Hmore as [He Hrest].
    simpl run. unfold onTranscript at 1. unfold utterance_end in He.
    rewrite He. simpl. now rewrite (IH Hrest). }
  now rewrite Hidle.
Qed.

Lemma speech_final_then_utterance_end_witness :
  run init [segment (str "quero dois") true; utteranceEnd; utteranceEnd] =
    ({| finalResult := []; speechFinal := true |},
     [Transcription (str "quero dois ")]).
Proof.
  apply (@speech_final_then_utterance_end init
           (segment (str "quero dois") true) [utteranceEnd; utteranceEnd]);
    reflexivity.
Defined.

End TranscriptRuns.

(* --------------------------------------------------------------------- *)
(** ** Streams without a tool call *)
(* --------------------------------------------------------------------- *)

Module PlainReplies.

Import Json GptService StreamObservations JsFacts Samples.

Lemma reply_texts_app (a b : list Event) :
  reply_texts (a ++ b) = reply_texts a ++ reply_texts b.
Proof.
  unfold reply_texts.
  induction a as [|e a IH]; [reflexivity|].
  destruct e; simpl; now rewrite ?IH.
Qed.

Lemma completeResponse_collected (chunk : Chunk) (l : Locals) :
  completeResponse (collected chunk l) = completeResponse l.
Proof. unfold collected. now destruct (delta_tool_calls chunk). Qed.

Lemma partialResponse_collected (chunk : Chunk) (l : Locals) :
  partialResponse (collected chunk l) = partialResponse l.
Proof. unfold collected. now destruct (delta_tool_calls chunk). Qed.

Lemma functionArgs_collected (chunk : Chunk) (l : Locals) :
  functionArgs (collected chunk l) = functionArgs l ++ argument_fragment chunk.
Proof.
  unfold collected, argument_fragment.
  destruct (delta_tool_calls chunk) as [d|]; simpl; [|now rewrite app_nil_r].
  destruct (or_empty (tc_arguments d)); simpl; [now rewrite app_nil_r|reflexivity].
Qed.

Lemma functionName_collected (chunk : Chunk) (l : Locals) :
  functionName (collected chunk l) =
    if truthy (name_fragment chunk) then name_fragment chunk else functionName l.
Proof.
  unfold collected, name_fragment.
  now destruct (delta_tool_calls chunk) as [d|].
Qed.

Section Streams.

Variable tools : list Tool.
Variable marker : jsstring.
Variable create : list Message -> list Chunk.

(** What the loop makes of chunks that carry no tool-call finish: it never
    calls [again], leaves the log alone, appends every text to
    [completeResponse], every argument fragment to [functionArgs], keeps the
    last non-empty name, and emits indexed fragments only, whose texts
    followed by the text still buffered are all the text so far. *)
Lemma for_await_text_only (again : Again) (ic : nat) (stream : list Chunk) :
  text_only stream = true ->
  forall l st,
  exists l' replies,
    for_await tools marker again ic stream l st =
      (Returned,
       (l', {| userContext := userContext st;
               partialResponseIndex := partialResponseIndex st + length replies;
               trace := trace st ++ replies |})) /\
    completeResponse l' = completeResponse l ++ contents stream /\
    functionArgs l' = functionArgs l ++ arguments stream /\
    functionName l' = last_name stream (functionName l) /\
    Forall (indexed_reply ic) replies /\
    concat (reply_texts replies) ++ partialResponse l' =
      partialResponse l ++ contents stream.
Proof.
  induction stream as [|chunk rest IH]; intros Hto l st.
  - exists l, []. cbn [for_await length]. rewrite Nat.add_0_r, !app_nil_r.
    unfold contents, arguments. simpl.
    destruct st. repeat split. constructor.
  - simpl in Hto. apply andb_true_iff in Hto as [Hc Hrest].
    apply negb_true_iff in Hc.
    cbn [for_await]. unfold body.
    rewrite ConversationAgent.finishReason_collected, Hc.
    unfold text_branch.
    set (text := or_empty (delta_content chunk)).
    set (l1 := collected chunk l).
    destruct (emits_fragment marker text l1) eqn:Hem.
    + match goal with |- context [for_await _ _ _ _ rest ?la ?sa] =>
        destruct (IH Hrest la sa) as (l' & replies & E & Hcr & Hfa & Hfn & Hall & Hsum)
      end.
      cbn [completeResponse partialResponse functionArgs functionName
           userContext partialResponseIndex trace] in *.
      exists l', (GptReply (Some (partialResponseIndex st))
                           (partialResponse l1 ++ text) ic :: replies).
      rewrite E. repeat split.
      * f_equal. f_equal. f_equal; [cbn [length]; lia|].
        now rewrite <- app_assoc.
      * rewrite Hcr. unfold l1. rewrite completeResponse_collected.
        unfold contents. simpl. now rewrite <- app_assoc.
      * rewrite Hfa. unfold l1. rewrite functionArgs_collected.
        unfold arguments. simpl. now rewrite <- app_assoc.
      * rewrite Hfn. unfold l1. now rewrite functionName_collected.
      * constructor; [now exists (partialResponseIndex st), (partialResponse l1 ++ text)|exact Hall].
      * unfold reply_texts in *. simpl. rewrite <- app_assoc, Hsum.
        unfold l1. rewrite partialResponse_collected.
        unfold contents. simpl. now rewrite app_assoc.
    + match goal with |- context [for_await _ _ _ _ rest ?la ?sa] =>
        destruct (IH Hrest la sa) as (l' & replies & E & Hcr & Hfa & Hfn & Hall & Hsum)
      end.
      cbn [completeResponse partialResponse functionArgs functionName] in *.
      exists l', replies. rewrite E. repeat split.
      * rewrite Hcr. unfold l1. rewrite completeResponse_collected.
        unfold contents. simpl. now rewrite <- app_assoc.
      * rewrite Hfa. unfold l1. rewrite functionArgs_collected.
        unfold arguments. simpl. now rewrite <- app_assoc.
      * rewrite Hfn. unfold l1. now rewrite functionName_collected.
      * exact Hall.
      * rewrite Hsum. unfold l1. rewrite partialResponse_collected.
        unfold contents. simpl. now rewrite <- app_assoc.
Qed.

Lemma trace_updateUserContext (nm : jsstring) (r : Role) (text : jsstring)
    (st : State) :
  trace (updateUserContext nm r text st) = trace st.
Proof. unfold updateUserContext. now destruct (negb _). Qed.

Lemma index_updateUserContext (nm : jsstring) (r : Role) (text : jsstring)
    (st : State) :
  partialResponseIndex (updateUserContext nm r text st) = partialResponseIndex st.
Proof. unfold updateUserContext. now destruct (negb _). Qed.

Lemma userContext_turn (nm : jsstring) (r : Role) (text : jsstring) (st : State) :
  userContext (updateUserContext nm r text st) = userContext st ++ [turn nm r text].
Proof. apply ConversationAgent.userContext_updateUserContext. Qed.

(** A call whose stream carries no tool-call finish, spelled out. *)
Lemma completion_text_only (fuel : nat) (text : jsstring) (ic : nat) (r : Role)
    (nm : jsstring) (st : State) :
  let request := userContext st ++ [turn nm r text] in
  text_only (create request) = true ->
  exists l' replies,
    for_await tools marker (completion tools marker create fuel) ic
              (create request) locals0
              (record (Create request) (updateUserContext nm r text st)) =
      (Returned,
       (l', {| userContext := request;
               partialResponseIndex := partialResponseIndex st + length replies;
               trace := (trace st ++ [Create request]) ++ replies |})) /\
    completion tools marker create (S fuel) text ic r nm st =
      (Returned,
       {| userContext := userContext st ++
                         [turn nm r text; reply_turn (contents (create request))];
          partialResponseIndex := partialResponseIndex st + length replies;
          trace := trace st ++ Create request :: replies ++
                   [ContextLength (length (userContext st) + 2)] |}) /\
    Forall (indexed_reply ic) replies /\
    concat (reply_texts replies) ++ partialResponse l' = contents (create request).
Proof.
  intros request Hto.
  destruct (for_await_text_only (completion tools marker create fuel) ic
              (create request) Hto locals0
              (record (Create request) (updateUserContext nm r text st)))
    as (l' & replies & E & Hcr & _ & _ & Hall & Hsum).
  cbn [userContext partialResponseIndex trace record] in E.
  rewrite userContext_turn, index_updateUserContext, trace_updateUserContext in E.
  fold request in E.
  unfold locals0 in Hcr, Hsum. cbn [completeResponse partialResponse app] in Hcr, Hsum.
  exists l', replies. split; [exact E|]. split; [|split; [exact Hall|exact Hsum]].
  rewrite ConversationAgent.completion_unfold. cbv zeta.
  rewrite userContext_turn. fold request. rewrite E.
  unfold record, push. cbn [userContext partialResponseIndex trace].
  rewrite Hcr. unfold reply_turn. f_equal. f_equal.
  - unfold request. now rewrite <- app_assoc.
  - rewrite <- !app_assoc. cbn [app]. do 3 f_equal.
    unfold request. rewrite !length_app. cbn [length]. do 2 f_equal. lia.
Qed.

(** A reply without a tool call: [completion] makes one request and
    returns; the log gains the input turn and one assistant turn holding
    all the text of the stream; only indexed fragments of this interaction
    are emitted, and what they say is a prefix of that text. *)
Theorem plain_reply_appends_two_turns (fuel : nat) (text : jsstring) (ic : nat)
    (r : Role) (nm : jsstring) (st : State) :
  let request := userContext st ++ [turn nm r text] in
  text_only (create request) = true ->
  exists replies unsaid,
    completion tools marker create (S fuel) text ic r nm st =
      (Returned,
       {| userContext := userContext st ++
                         [turn nm r text; reply_turn (contents (create request))];
          partialResponseIndex := partialResponseIndex st + length replies;
          trace := trace st ++ Create request :: replies ++
                   [ContextLength (length (userContext st) + 2)] |}) /\
    Forall (indexed_reply ic) replies /\
    concat (reply_texts replies) ++ unsaid = contents (create request).
Proof.
  intros request Hto.
  destruct (completion_text_only fuel text ic r nm st Hto)
    as (l' & replies & _ & E & Hall & Hsum).
  exists replies, (partialResponse l'). auto.
Qed.

(** After a chunk with the finish reason stop nothing is left buffered. *)
Lemma for_await_stop_last (again : Again) (ic : nat) (pre : list Chunk)
    (c : Chunk) (l : Locals) (st : State) (o : Outcome) (l' : Locals)
    (st' : State) :
  text_only (pre ++ [c]) = true ->
  finish_reason c = Some stop ->
  for_await tools marker again ic (pre ++ [c]) l st = (o, (l', st')) ->
  partialResponse l' = [].
Proof.
  intros Hto Hstop. unfold text_only in Hto. rewrite forallb_app in Hto.
  apply andb_true_iff in Hto as [Hpre _].
  rewrite ConversationAgent.for_await_app.
  destruct (for_await_text_only again ic pre Hpre l st)
    as (l1 & replies & E & _).
  rewrite E. cbn [for_await]. unfold body.
  rewrite ConversationAgent.finishReason_collected, Hstop. cbn [is_tool_calls].
  unfold text_branch, emits_fragment.
  rewrite ConversationAgent.finishReason_collected, Hstop.
  cbn [is_stop]. rewrite orb_true_r.
  now intros [= _ <- _].
Qed.

(** When the stream ends with the finish reason stop, what was spoken is
    what was logged: the texts of the fragments emitted, put together, are
    the content of the assistant turn. *)
Theorem spoken_equals_logged (fuel : nat) (text : jsstring) (ic : nat)
    (r : Role) (nm : jsstring) (st : State) (pre : list Chunk) (c : Chunk) :
  let request := userContext st ++ [turn nm r text] in
  create request = pre ++ [c] ->
  text_only (pre ++ [c]) = true ->
  finish_reason c = Some stop ->
  exists replies,
    completion tools marker create (S fuel) text ic r nm st =
      (Returned,
       {| userContext := userContext st ++
                         [turn nm r text; reply_turn (contents (pre ++ [c]))];
          partialResponseIndex := partialResponseIndex st + length replies;
          trace := trace st ++ Create request :: replies ++
                   [ContextLength (length (userContext st) + 2)] |}) /\
    concat (reply_texts replies) = contents (pre ++ [c]).
Proof.
  intros request Hstream Hto Hstop. subst request.
  assert (Hto' : text_only (create (userContext st ++ [turn nm r text])) = true)
    by now rewrite Hstream.
  destruct (completion_text_only fuel text ic r nm st Hto')
    as (l' & replies & Eloop & E & _ & Hsum).
  exists replies. rewrite <- Hstream. split; [exact E|].
  rewrite Hstream in Eloop.
  rewrite (for_await_stop_last _ _ _ _ _ _ Hto Hstop Eloop), app_nil_r in Hsum.
  exact Hsum.
Qed.

End Streams.

Lemma spoken_equals_logged_witness :
  exists replies,
    completion manifest bullet (fun _ => phrased_stream) 1 (str "oi") 0
               user (str "user") (constructor None) =
      (Returned,
       {| userContext :=
            loadPromptFromFile None ++
            [turn (str "user") user (str "oi");
             reply_turn (str "Claro " ++ bullet ++ str " qual modelo?")];
          partialResponseIndex := 0 + length replies;
          trace :=
            [] ++ Create (loadPromptFromFile None ++
                          [turn (str "user") user (str "oi")])
               :: replies ++ [ContextLength (2 + 2)] |}) /\
    concat (reply_texts replies) = str "Claro " ++ bullet ++ str " qual modelo?".
Proof.
  apply (@spoken_equals_logged manifest bullet (fun _ => phrased_stream) 0
           (str "oi") 0 user (str "user") (constructor None)
           (firstn 2 phrased_stream) (finish stop)); reflexivity.
Defined.

Lemma plain_reply_appends_two_turns_witness :
  exists replies unsaid,
    completion manifest bullet (fun _ => unsplit_stream) 1 (str "oi") 0
               user (str "user") (constructor None) =
      (Returned,
       {| userContext :=
            loadPromptFromFile None ++
            [turn (str "user") user (str "oi");
             reply_turn (contents unsplit_stream)];
          partialResponseIndex := 0 + length replies;
          trace :=
            [] ++ Create (loadPromptFromFile None ++
                          [turn (str "user") user (str "oi")])
               :: replies ++ [ContextLength (2 + 2)] |}) /\
    Forall (indexed_reply 0) replies /\
    concat (reply_texts replies) ++ unsaid = contents unsplit_stream.
Proof.
  apply (@plain_reply_appends_two_turns manifest bullet (fun _ => unsplit_stream)
           0 (str "oi") 0 user (str "user") (constructor None)).
  reflexivity.
Defined.

(** In the current revision, chunks that carry neither the finish reason
    tool_calls nor stop change nothing but the local buffers. *)
Lemma for_await_silent (tools : list Tool) (again : Again) (ic : nat)
    (stream : list Chunk) :
  text_only stream = true -> no_stop stream = true ->
  forall l st, exists l',
    for_await tools garbled_bullet again ic stream l st = (Returned, (l', st)).
Proof.
  induction stream as [|chunk rest IH]; intros Hto Hns l st.
  - now exists l.
  - simpl in Hto, Hns.
    apply andb_true_iff in Hto as [Hc Hrest].
    apply andb_true_iff in Hns as [Hs Hrest'].
    apply negb_true_iff in Hc, Hs.
    cbn [for_await]. unfold body.
    rewrite ConversationAgent.finishReason_collected, Hc.
    unfold text_branch.
    rewrite ConversationAgent.emits_fragment_garbled,
            ConversationAgent.finishReason_collected, Hs.
    apply (IH Hrest Hrest').
Qed.

(** In the current revision a reply that never reaches the finish reason
    stop (cut by the length limit, say) is logged in full as an assistant
    turn, but not one fragment of it is emitted. *)
Theorem unfinished_reply_is_logged_not_spoken
    (tools : list Tool) (create : list Message -> list Chunk) (fuel : nat)
    (text : jsstring) (ic : nat) (r : Role) (nm : jsstring) (st : State) :
  let request := userContext st ++ [turn nm r text] in
  text_only (create request) = true ->
  no_stop (create request) = true ->
  completion tools garbled_bullet create (S fuel) text ic r nm st =
    (Returned,
     {| userContext := userContext st ++
                       [turn nm r text; reply_turn (contents (create request))];
        partialResponseIndex := partialResponseIndex st;
        trace := trace st ++ [Create request;
                              ContextLength (length (userContext st) + 2)] |}).
Proof.
  intros request Hto Hns.
  destruct (completion_text_only tools garbled_bullet create fuel text ic r nm st Hto)
    as (l' & replies & Eloop & E & _ & _).
  fold request in Eloop, E.
  destruct (for_await_silent tools (completion tools garbled_bullet create fuel)
              ic (create request) Hto Hns locals0
              (record (Create request) (updateUserContext nm r text st)))
    as (l'' & Es).
  rewrite Es in Eloop.
  pose proof (f_equal (fun x => trace (snd (snd x))) Eloop) as Hst.
  cbn [trace record snd] in Hst. unfold record in Hst. cbn [trace] in Hst.
  rewrite trace_updateUserContext in Hst.
  assert (Hnil : replies = []).
  { apply (f_equal (@length Event)) in Hst. rewrite !length_app in Hst.
    destruct replies; [reflexivity|]. simpl in Hst. lia. }
  rewrite E, Hnil. cbn [length app]. now rewrite Nat.add_0_r.
Qed.

Lemma unfinished_reply_is_logged_not_spoken_witness :
  completion manifest garbled_bullet
             (fun _ => [text_delta (str "Claro " ++ bullet);
                        text_delta (str " qual"); finish length_limit])
             1 (str "oi") 0 user (str "user") (constructor None) =
    (Returned,
     {| userContext :=
          loadPromptFromFile None ++
          [turn (str "user") user (str "oi");
           reply_turn (str "Claro " ++ bullet ++ str " qual")];
        partialResponseIndex := 0;
        trace := [] ++ [Create (loadPromptFromFile None ++
                                [turn (str "user") user (str "oi")]);
                        ContextLength (2 + 2)] |}).
Proof.
  apply (@unfinished_reply_is_logged_not_spoken manifest
           (fun _ => [text_delta (str "Claro " ++ bullet);
                      text_delta (str " qual"); finish length_limit])
           0 (str "oi") 0 user (str "user") (constructor None)); reflexivity.
Defined.

End PlainReplies.

(* --------------------------------------------------------------------- *)
(** ** Streams that end in a tool call *)
(* --------------------------------------------------------------------- *)

Module ToolCalls.

Import Json GptService StreamObservations JsFacts Samples.

Lemma tags_refl (ic : nat) (st : State) : tags ic st st.
Proof. exists []. now rewrite app_nil_r. Qed.

Lemma tags_trans (ic : nat) (a b c : State) :
  tags ic a b -> tags ic b c -> tags ic a c.
Proof.
  intros (t1 & H1 & F1) (t2 & H2 & F2). exists (t1 ++ t2).
  split; [now rewrite H2, H1, app_assoc|]. apply Forall_app. auto.
Qed.

Lemma tags_record (ic : nat) (e : Event) (st : State) :
  tagged ic e -> tags ic st (record e st).
Proof. intros H. exists [e]. split; [reflexivity|]. now constructor. Qed.

Lemma tags_push (ic : nat) (m : Message) (st : State) : tags ic st (push m st).
Proof. exists []. simpl. now rewrite app_nil_r. Qed.

Lemma tags_updateUserContext (ic : nat) (nm : jsstring) (r : Role)
    (text : jsstring) (st : State) :
  tags ic st (updateUserContext nm r text st).
Proof. unfold updateUserContext. destruct (negb _); apply tags_push. Qed.

Lemma tags_validateFunctionArgs (ic : nat) (args : jsstring) (st : State) :
  tags ic st (snd (validateFunctionArgs args st)).
Proof.
  unfold validateFunctionArgs.
  destruct (JSON_parse args); [apply tags_refl|].
  destruct (negb _); [destruct (JSON_parse _)|]; now apply tags_record.
Qed.

Section Calls.

Variable tools : list Tool.
Variable marker : jsstring.
Variable create : list Message -> list Chunk.

Lemma tags_text_branch (ic : nat) (text : jsstring) (l : Locals) (st : State) :
  tags ic st (snd (text_branch marker ic text l st)).
Proof.
  unfold text_branch. destruct (emits_fragment _ _ _); [|apply tags_refl].
  eexists. split; [reflexivity|]. now constructor.
Qed.

Lemma tags_tool_branch (again : Again) (ic : nat) (l : Locals) (st : State) :
  (forall text r nm s, tags ic s (snd (again text ic r nm s))) ->
  tags ic st (snd (tool_branch tools again ic l st)).
Proof.
  intros Hagain. unfold tool_branch.
  pose proof (tags_validateFunctionArgs ic (functionArgs l) st) as Hv.
  destruct (validateFunctionArgs (functionArgs l) st) as [[e|args] st1];
    simpl in Hv; [exact Hv|].
  destruct (find_tool tools (functionName l)) as [t|]; [|exact Hv].
  set (st3 := record (Called (functionName l) args)
                     (record (GptReply None (say t) ic) st1)).
  assert (H3 : tags ic st st3).
  { eapply tags_trans; [exact Hv|].
    eapply tags_trans; apply tags_record; simpl; auto. }
  destruct (call t args) as [response|]; [|exact H3].
  eapply tags_trans; [exact H3|].
  eapply tags_trans; [apply tags_updateUserContext|apply Hagain].
Qed.

Lemma tags_for_await (again : Again) (ic : nat) (stream : list Chunk) :
  (forall text r nm s, tags ic s (snd (again text ic r nm s))) ->
  forall l st,
    tags ic st (snd (snd (for_await tools marker again ic stream l st))).
Proof.
  intros Hagain. induction stream as [|chunk rest IH]; intros l st; simpl.
  - apply tags_refl.
  - assert (Hb : tags ic st (snd (snd (body tools marker again ic chunk l st)))).
    { unfold body. destruct (is_tool_calls _).
      - pose proof (@tags_tool_branch again ic (collected chunk l) st Hagain) as H.
        now destruct (tool_branch _ _ _ _ _).
      - apply tags_text_branch. }
    destruct (body _ _ _ _ _ _ _) as [[| |] [l' st']]; simpl in *;
      try exact Hb.
    eapply tags_trans; [exact Hb|apply IH].
Qed.

(** Every fragment a call of [completion] emits, the announcements and the
    fragments of the nested calls included, carries the interaction count
    the call was given. *)
Theorem fragments_carry_interaction_count (fuel : nat) :
  forall text ic r nm st,
  exists t,
    trace (snd (completion tools marker create fuel text ic r nm st)) =
      trace st ++ t /\
    Forall (tagged ic) t.
Proof.
  induction fuel as [|fuel IH]; intros text ic r nm st.
  - apply (tags_refl ic st).
  - change (tags ic st
              (snd (completion tools marker create (S fuel) text ic r nm st))).
    rewrite ConversationAgent.completion_unfold. cbv zeta.
    set (st1 := updateUserContext nm r text st).
    set (st2 := record (Create (userContext st1)) st1).
    assert (H2 : tags ic st st2).
    { eapply tags_trans; [apply tags_updateUserContext|].
      now apply tags_record. }
    pose proof (@tags_for_await (completion tools marker create fuel) ic
                  (create (userContext st1))
                  (fun text r nm s => IH text ic r nm s) locals0 st2) as Hf.
    destruct (for_await _ _ _ _ _ _ _) as [[| |] [l st3]]; cbn [snd] in *;
      try (eapply tags_trans; [exact H2|exact Hf]).
    eapply tags_trans; [exact H2|].
    eapply tags_trans; [exact Hf|].
    eapply tags_trans; [apply tags_push|]. now apply tags_record.
Qed.

(** *** The user turns of the log *)

Lemma user_texts_app (a b : list Message) :
  user_texts (a ++ b) = user_texts a ++ user_texts b.
Proof. unfold user_texts. now rewrite filter_app, map_app. Qed.

Lemma user_texts_validate (args : jsstring) (st : State) :
  userContext (snd (validateFunctionArgs args st)) = userContext st.
Proof.
  unfold validateFunctionArgs.
  destruct (JSON_parse args); [reflexivity|].
  destruct (negb _); [destruct (JSON_parse _)|]; reflexivity.
Qed.

Lemma user_texts_tool_branch (again : Again) (ic : nat) (l : Locals) (st : State) :
  (forall text n nm s,
     user_texts (userContext (snd (again text n function nm s))) =
     user_texts (userContext s)) ->
  user_texts (userContext (snd (tool_branch tools again ic l st))) =
  user_texts (userContext st).
Proof.
  intros Hagain. unfold tool_branch.
  pose proof (user_texts_validate (functionArgs l) st) as Hv.
  destruct (validateFunctionArgs (functionArgs l) st) as [[e|args] st1];
    simpl in Hv; [simpl; now rewrite Hv|].
  destruct (find_tool tools (functionName l)) as [t|]; [|simpl; now rewrite Hv].
  destruct (call t args) as [response|]; [|simpl; now rewrite Hv].
  rewrite Hagain, PlainReplies.userContext_turn. cbn [userContext record].
  rewrite user_texts_app, Hv. unfold user_texts at 2. simpl.
  now rewrite app_nil_r.
Qed.

Lemma user_texts_for_await (again : Again) (ic : nat) (stream : list Chunk) :
  (forall text n nm s,
     user_texts (userContext (snd (again text n function nm s))) =
     user_texts (userContext s)) ->
  forall l st,
    user_texts (userContext
                  (snd (snd (for_await tools marker again ic stream l st)))) =
    user_texts (userContext st).
Proof.
  intros Hagain. induction stream as [|chunk rest IH]; intros l st; simpl.
  - reflexivity.
  - assert (Hb : user_texts (userContext
                   (snd (snd (body tools marker again ic chunk l st)))) =
                 user_texts (userContext st)).
    { unfold body. destruct (is_tool_calls _).
      - pose proof (@user_texts_tool_branch again ic (collected chunk l) st Hagain) as H.
        now destruct (tool_branch _ _ _ _ _).
      - unfold text_branch. now destruct (emits_fragment _ _ _). }
    destruct (body _ _ _ _ _ _ _) as [[| |] [l' st']]; simpl in *;
      try exact Hb.
    now rewrite IH.
Qed.

(** A call of [completion] adds to the user turns of the log its own input
    when its role is user, and nothing else: no nested call, tool turn or
    reply ever shows up as a user turn. *)
Theorem completion_user_turns (fuel : nat) :
  forall text ic r nm st,
    user_texts (userContext
                  (snd (completion tools marker create fuel text ic r nm st))) =
    user_texts (userContext st) ++ own_user_text fuel r text.
Proof.
  induction fuel as [|fuel IH]; intros text ic r nm st.
  - simpl. now rewrite app_nil_r.
  - rewrite ConversationAgent.completion_unfold. cbv zeta.
    set (st1 := updateUserContext nm r text st).
    set (st2 := record (Create (userContext st1)) st1).
    assert (H2 : user_texts (userContext st2) =
                 user_texts (userContext st) ++ own_user_text (S fuel) r text).
    { unfold st2, st1. cbn [userContext record].
      rewrite PlainReplies.userContext_turn, user_texts_app.
      f_equal. unfold user_texts, turn, is_user. now destruct r. }
    assert (Hnested : forall text n nm s,
      user_texts (userContext
                    (snd (completion tools marker create fuel text n function nm s))) =
      user_texts (userContext s)).
    { intros. rewrite IH. unfold own_user_text.
      destruct fuel; now rewrite app_nil_r. }
    pose proof (@user_texts_for_await (completion tools marker create fuel) ic
                  (create (userContext st1)) Hnested locals0 st2) as Hf.
    destruct (for_await _ _ _ _ _ _ _) as [[| |] [l st3]]; simpl in *;
      try (now rewrite Hf, H2).
    rewrite user_texts_app, Hf, H2. unfold user_texts at 2. simpl.
    now rewrite app_nil_r.
Qed.

(** *** Reaching the tool-call chunk *)

Lemma arguments_app (a b : list Chunk) :
  arguments (a ++ b) = arguments a ++ arguments b.
Proof. unfold arguments. now rewrite map_app, concat_app. Qed.

Lemma last_name_app (a b : list Chunk) : forall current,
  last_name (a ++ b) current = last_name b (last_name a current).
Proof. induction a as [|c a IH]; intros current; simpl; auto. Qed.

(** When validation does not throw, it gives [validated] and logs
    [warning]. *)
Lemma validateFunctionArgs_settled (args : jsstring) (st : State) :
  ~ unrecoverable args ->
  validateFunctionArgs args st =
    (inr (validated args),
     {| userContext := userContext st;
        partialResponseIndex := partialResponseIndex st;
        trace := trace st ++ warning args |}).
Proof.
  intros Hun. unfold validateFunctionArgs, validated, warning.
  destruct (JSON_parse args) eqn:E1.
  - destruct st. simpl. now rewrite app_nil_r.
  - destruct (negb _) eqn:E2; [|reflexivity].
    destruct (JSON_parse (substring _ _ _)) eqn:E3; [reflexivity|].
    exfalso. apply Hun. repeat split; auto.
    apply negb_true_iff in E2. now apply Z.eqb_neq in E2.
Qed.

(** The loop on a stream whose first tool-call finish comes with [chunk]:
    the chunks before it only emit indexed fragments, and the tool branch
    then runs on the name and the arguments collected from all of them. *)
Lemma for_await_at_tool_chunk (again : Again) (ic : nat)
    (pre : list Chunk) (chunk : Chunk) (rest : list Chunk) (st : State) :
  text_only pre = true ->
  finish_reason chunk = Some tool_calls ->
  exists l1 replies,
    Forall (indexed_reply ic) replies /\
    functionArgs l1 = arguments (pre ++ [chunk]) /\
    functionName l1 = last_name (pre ++ [chunk]) [] /\
    for_await tools marker again ic (pre ++ chunk :: rest) locals0 st =
      match tool_branch tools again ic l1
              {| userContext := userContext st;
                 partialResponseIndex := partialResponseIndex st + length replies;
                 trace := trace st ++ replies |} with
      | (Returned, st2) => for_await tools marker again ic rest l1 st2
      | (o, st2) => (o, (l1, st2))
      end.
Proof.
  intros Hpre Hfin.
  destruct (PlainReplies.for_await_text_only tools marker again ic pre Hpre locals0 st)
    as (l' & replies & E & _ & Hfa & Hfn & Hall & _).
  exists (collected chunk l'), replies. split; [exact Hall|].
  split; [|split].
  - rewrite PlainReplies.functionArgs_collected, Hfa, arguments_app.
    unfold arguments at 3. simpl. now rewrite app_nil_r.
  - rewrite PlainReplies.functionName_collected, Hfn, last_name_app. reflexivity.
  - rewrite ConversationAgent.for_await_app, E. cbn [for_await]. unfold body.
    rewrite ConversationAgent.finishReason_collected, Hfin. cbn [is_tool_calls].
    destruct (tool_branch _ _ _ _ _) as [[| |] st2]; reflexivity.
Qed.

(** A tool call for a name that is not in the manifest: [completion] throws
    a TypeError before anything is announced or called, and the log holds
    the input turn only. *)
Theorem unknown_tool_throws (fuel : nat) (text : jsstring) (ic : nat) (r : Role)
    (nm : jsstring) (st : State) (pre : list Chunk) (chunk : Chunk)
    (rest : list Chunk) :
  let request := userContext st ++ [turn nm r text] in
  let args := arguments (pre ++ [chunk]) in
  create request = pre ++ chunk :: rest ->
  text_only pre = true ->
  finish_reason chunk = Some tool_calls ->
  ~ unrecoverable args ->
  find_tool tools (last_name (pre ++ [chunk]) []) = None ->
  exists replies,
    Forall (indexed_reply ic) replies /\
    completion tools marker create (S fuel) text ic r nm st =
      (Threw TypeError,
       {| userContext := request;
          partialResponseIndex := partialResponseIndex st + length replies;
          trace := trace st ++ Create request :: replies ++ warning args |}).
Proof.
  intros request args Hstream Hpre Hfin Hun Hfind.
  destruct (for_await_at_tool_chunk (completion tools marker create fuel) ic
              pre chunk rest
              (record (Create request) (updateUserContext nm r text st))
              Hpre Hfin)
    as (l1 & replies & Hall & Hfa & Hfn & E).
  exists replies. split; [exact Hall|].
  rewrite ConversationAgent.completion_unfold. cbv zeta.
  rewrite PlainReplies.userContext_turn. fold request. rewrite Hstream, E.
  unfold tool_branch. rewrite Hfa. fold args.
  rewrite (validateFunctionArgs_settled _ Hun), Hfn, Hfind.
  unfold record. cbn [userContext partialResponseIndex trace].
  rewrite PlainReplies.userContext_turn, PlainReplies.index_updateUserContext,
          PlainReplies.trace_updateUserContext.
  fold request. now rewrite <- !app_assoc.
Qed.

(** A tool whose function throws: the announcement was emitted and the
    function called, then [completion] ends with the failure; no function
    turn and no assistant turn reach the log. *)
Theorem failing_tool_throws_after_announcement
    (fuel : nat) (text : jsstring) (ic : nat) (r : Role)
    (nm : jsstring) (st : State) (pre : list Chunk) (chunk : Chunk)
    (rest : list Chunk) (t : Tool) :
  let request := userContext st ++ [turn nm r text] in
  let args := arguments (pre ++ [chunk]) in
  let called := last_name (pre ++ [chunk]) [] in
  create request = pre ++ chunk :: rest ->
  text_only pre = true ->
  finish_reason chunk = Some tool_calls ->
  ~ unrecoverable args ->
  find_tool tools called = Some t ->
  call t (validated args) = None ->
  exists replies,
    Forall (indexed_reply ic) replies /\
    completion tools marker create (S fuel) text ic r nm st =
      (Threw ToolFailure,
       {| userContext := request;
          partialResponseIndex := partialResponseIndex st + length replies;
          trace := trace st ++ Create request :: replies ++ warning args ++
                   [GptReply None (say t) ic; Called called (validated args)] |}).
Proof.
  intros request args called Hstream Hpre Hfin Hun Hfind Hcall.
  destruct (for_await_at_tool_chunk (completion tools marker create fuel) ic
              pre chunk rest
              (record (Create request) (updateUserContext nm r text st))
              Hpre Hfin)
    as (l1 & replies & Hall & Hfa & Hfn & E).
  exists replies. split; [exact Hall|].
  rewrite ConversationAgent.completion_unfold. cbv zeta.
  rewrite PlainReplies.userContext_turn. fold request. rewrite Hstream, E.
  unfold tool_branch. rewrite Hfa. fold args.
  rewrite (validateFunctionArgs_settled _ Hun), Hfn. fold called.
  rewrite Hfind, Hcall.
  unfold record. cbn [userContext partialResponseIndex trace].
  rewrite PlainReplies.userContext_turn, PlainReplies.index_updateUserContext,
          PlainReplies.trace_updateUserContext.
  fold request. now rewrite <- !app_assoc.
Qed.

(** The tool that is called is the one named by the last non-empty name
    fragment of the stream, on the validated concatenation of all argument
    fragments, and its announcement is emitted right before the call: after
    the request and the fragments of the chunks before, the trace reads
    warning (if any), announcement, call, and only then whatever follows. *)
Theorem tool_called_on_collected_arguments
    (fuel : nat) (text : jsstring) (ic : nat) (r : Role)
    (nm : jsstring) (st : State) (pre : list Chunk) (chunk : Chunk)
    (rest : list Chunk) (t : Tool) :
  let request := userContext st ++ [turn nm r text] in
  let args := arguments (pre ++ [chunk]) in
  let called := last_name (pre ++ [chunk]) [] in
  create request = pre ++ chunk :: rest ->
  text_only pre = true ->
  finish_reason chunk = Some tool_calls ->
  ~ unrecoverable args ->
  find_tool tools called = Some t ->
  exists replies more,
    Forall (indexed_reply ic) replies /\
    trace (snd (completion tools marker create (S fuel) text ic r nm st)) =
      trace st ++ Create request :: replies ++ warning args ++
      [GptReply None (say t) ic; Called called (validated args)] ++ more.
Proof.
  intros request args called Hstream Hpre Hfin Hun Hfind.
  set (st0 := record (Create request) (updateUserContext nm r text st)).
  assert (Hu0 : userContext st0 = request)
    by (unfold st0; cbn [userContext record];
        now rewrite PlainReplies.userContext_turn).
  assert (Hi0 : partialResponseIndex st0 = partialResponseIndex st)
    by (unfold st0, record; cbn [partialResponseIndex];
        now rewrite PlainReplies.index_updateUserContext).
  assert (Ht0 : trace st0 = trace st ++ [Create request])
    by (unfold st0, record; cbn [trace];
        now rewrite PlainReplies.trace_updateUserContext).
  destruct (for_await_at_tool_chunk (completion tools marker create fuel) ic
              pre chunk rest st0 Hpre Hfin)
    as (l1 & replies & Hall & Hfa & Hfn & E).
  exists replies.
  rewrite ConversationAgent.completion_unfold. cbv zeta.
  rewrite PlainReplies.userContext_turn. fold request. fold st0.
  rewrite Hstream, E.
  unfold tool_branch. rewrite Hfa. fold args.
  rewrite (validateFunctionArgs_settled _ Hun), Hfn. fold called.
  rewrite Hfind. cbn [userContext partialResponseIndex trace].
  rewrite Hu0, Hi0, Ht0.
  set (st3 := record (Called called (validated args))
                (record (GptReply None (say t) ic)
                   {| userContext := request;
                      partialResponseIndex :=
                        partialResponseIndex st + length replies;
                      trace := ((trace st ++ [Create request]) ++ replies) ++
                               warning args |})).
  assert (Hshape : trace st3 =
    trace st ++ Create request :: replies ++ warning args ++
    [GptReply None (say t) ic; Called called (validated args)]).
  { unfold st3, record. cbn [trace]. rewrite <- !app_assoc. reflexivity. }
  assert (Hdone : forall final, grows st3 final ->
    exists more,
      Forall (indexed_reply ic) replies /\
      trace final =
        trace st ++ Create request :: replies ++ warning args ++
        [GptReply None (say t) ic; Called called (validated args)] ++ more).
  { intros final (_ & (more & Hm & _) & _). exists more.
    split; [exact Hall|].
    rewrite Hm, Hshape. rewrite <- !app_assoc. cbn [app].
    do 2 f_equal. now rewrite <- !app_assoc. }
  apply Hdone.
  destruct (call t (validated args)) as [response|];
    [|apply ConversationAgent.grows_refl].
  set (st4 := updateUserContext called function response st3).
  assert (H4 : grows st3 st4) by apply ConversationAgent.grows_updateUserContext.
  pose proof (ConversationAgent.grows_completion tools marker create fuel
                response ic function called st4) as H5.
  destruct (completion tools marker create fuel response ic function called st4)
    as [[| |] st5]; cbn [snd] in *;
    try (eapply ConversationAgent.grows_trans; [exact H4|exact H5]).
  pose proof (@ConversationAgent.grows_for_await tools marker
                (completion tools marker create fuel) ic rest
                (ConversationAgent.grows_completion tools marker create fuel)
                l1 st5) as H6.
  destruct (for_await tools marker (completion tools marker create fuel) ic
                      rest l1 st5) as [[| |] [l6 st6]]; cbn [snd] in *;
    try (eapply ConversationAgent.grows_trans; [exact H4|];
         eapply ConversationAgent.grows_trans; [exact H5|exact H6]).
  eapply ConversationAgent.grows_trans; [exact H4|].
  eapply ConversationAgent.grows_trans; [exact H5|].
  eapply ConversationAgent.grows_trans; [exact H6|].
  eapply ConversationAgent.grows_trans; [apply ConversationAgent.grows_push|].
  now apply ConversationAgent.grows_record.
Qed.

End Calls.

Import MoreSamples.

Lemma a1_recoverable : ~ unrecoverable (arguments (firstn 3 (tool_call_stream a1) ++
                                                   [finish tool_calls])).
Proof. intros (H & _). vm_compute in H. discriminate H. Qed.

Lemma unknown_tool_throws_witness :
  exists replies,
    Forall (indexed_reply 0) replies /\
    completion [] bullet (fun _ => tool_call_stream a1) 1 (str "oi") 0
               user (str "user") (constructor None) =
      (Threw TypeError,
       {| userContext := loadPromptFromFile None ++
                         [turn (str "user") user (str "oi")];
          partialResponseIndex := 0 + length replies;
          trace := [] ++ Create (loadPromptFromFile None ++
                                 [turn (str "user") user (str "oi")])
                      :: replies ++ [] |}).
Proof.
  apply (@unknown_tool_throws [] bullet (fun _ => tool_call_stream a1) 0
           (str "oi") 0 user (str "user") (constructor None)
           (firstn 3 (tool_call_stream a1)) (finish tool_calls) []);
    try reflexivity.
  exact a1_recoverable.
Defined.

Lemma failing_tool_throws_after_announcement_witness :
  exists replies,
    Forall (indexed_reply 0) replies /\
    completion [brokenPrice] bullet (fun _ => tool_call_stream a1) 1 (str "oi") 0
               user (str "user") (constructor None) =
      (Threw ToolFailure,
       {| userContext := loadPromptFromFile None ++
                         [turn (str "user") user (str "oi")];
          partialResponseIndex := 0 + length replies;
          trace := [] ++ Create (loadPromptFromFile None ++
                                 [turn (str "user") user (str "oi")])
                      :: replies ++ [] ++
                      [GptReply None (say brokenPrice) 0;
                       Called (str "lookupPrice")
                              (Some (JObject [(str "a", JNumber 1 0)]))] |}).
Proof.
  apply (@failing_tool_throws_after_announcement
           [brokenPrice] bullet (fun _ => tool_call_stream a1) 0
           (str "oi") 0 user (str "user") (constructor None)
           (firstn 3 (tool_call_stream a1)) (finish tool_calls) [] brokenPrice);
    try reflexivity.
  exact a1_recoverable.
Defined.

Lemma tool_called_on_collected_arguments_witness :
  exists replies more,
    Forall (indexed_reply 0) replies /\
    trace (snd (completion manifest bullet (model a1) 2 (str "oi") 0
                           user (str "user") (constructor None))) =
      [] ++ Create (loadPromptFromFile None ++
                    [turn (str "user") user (str "oi")])
         :: replies ++ [] ++
         [GptReply None (say lookupPrice) 0;
          Called (str "lookupPrice")
                 (Some (JObject [(str "a", JNumber 1 0)]))] ++ more.
Proof.
  apply (@tool_called_on_collected_arguments
           manifest bullet (model a1) 1
           (str "oi") 0 user (str "user") (constructor None)
           (firstn 3 (tool_call_stream a1)) (finish tool_calls) [] lookupPrice);
    try reflexivity.
  exact a1_recoverable.
Defined.

End ToolCalls.

(* --------------------------------------------------------------------- *)
(** ** The greeting, and the recovery of arguments *)
(* --------------------------------------------------------------------- *)

Module AgentEdges.

Import Json GptService StreamObservations JsFacts Samples MoreSamples.

(** The greeting never changes during a call: whatever is appended to the
    log, [getInitialGreeting] keeps returning the assistant prompt the
    constructor seeded it with, never the "Hello." of its last resort. *)
Theorem greeting_is_stable (tools : list Tool) (marker : jsstring)
    (create : list Message -> list Chunk)
    (file : option (jsstring * jsstring)) (fuel : nat) (ops : list Op) :
  getInitialGreeting (perform_all tools marker create fuel ops (constructor file)) =
    (None, seeded_greeting file).
Proof.
  destruct (ConversationAgent.grows_perform_all tools marker create fuel ops
              (constructor file)) as ((k & Hk) & _).
  unfold getInitialGreeting. rewrite Hk.
  destruct file as [[s a]|]; reflexivity.
Qed.

Lemma indexOf_empty (s : jsstring) : indexOf s [] = 0%Z.
Proof. unfold indexOf. now destruct s. Qed.

Lemma substring_prefix (o o' : jsstring) :
  substring (o ++ o') 0 (Z.of_nat (length o)) = o.
Proof.
  unfold substring, clamp, jslength. rewrite length_app.
  replace (Z.min (Z.max 0 (Z.min (Z.of_nat (length o + length o')) 0))
                 (Z.max 0 (Z.min (Z.of_nat (length o + length o'))
                                 (Z.of_nat (length o))))) with 0%Z by lia.
  replace (Z.max (Z.max 0 (Z.min (Z.of_nat (length o + length o')) 0))
                 (Z.max 0 (Z.min (Z.of_nat (length o + length o'))
                                 (Z.of_nat (length o))))) with (Z.of_nat (length o))
    by lia.
  rewrite Z.sub_0_r, Nat2Z.id. cbn [Z.to_nat skipn].
  rewrite firstn_app, firstn_all, Nat.sub_diag. cbn [firstn]. apply app_nil_r.
Qed.

(** The recovery looks at nothing beyond the first closing brace: when the
    arguments do not parse and hold two opening braces, what
    [validateFunctionArgs] gives is the parse of the text up to that brace,
    and whatever follows is dropped without being read. *)
Theorem recovery_reads_up_to_first_closing_brace
    (o o' : jsstring) (st : State) :
  JSON_parse (o ++ o') = None ->
  indexOf (o ++ o') (str "{") <> lastIndexOf (o ++ o') (str "{") ->
  (indexOf (o ++ o') (str "}") + 1)%Z = Z.of_nat (length o) ->
  validateFunctionArgs (o ++ o') st =
    (match JSON_parse o with
     | Some v => inr (Some v)
     | None => inl SyntaxError
     end, record (Warned (o ++ o')) st).
Proof.
  intros Hparse Htwo Hfirst. unfold validateFunctionArgs. rewrite Hparse.
  apply Z.eqb_neq in Htwo. rewrite Htwo. cbn [negb].
  rewrite indexOf_empty, Hfirst, substring_prefix.
  now destruct (JSON_parse o).
Qed.

Lemma recovery_reads_up_to_first_closing_brace_witness :
  validateFunctionArgs (a1 ++ a2) (constructor None) =
    (inr (Some (JObject [(str "a", JNumber 1 0)])),
     record (Warned (a1 ++ a2)) (constructor None)).
Proof.
  apply (@recovery_reads_up_to_first_closing_brace a1 a2 (constructor None)).
  - vm_compute. reflexivity.
  - vm_compute. discriminate.
  - vm_compute. reflexivity.
Defined.

End AgentEdges.

(* ===================================================================== *)
(** ** Completions that overlap *)
(* ===================================================================== *)

Module OverlappingTurns.

Import Json GptService StreamObservations Overlap JsFacts Samples.

Lemma turn_indices_app (ic : nat) (a b : list Event) :
  turn_indices ic (a ++ b) = turn_indices ic a ++ turn_indices ic b.
Proof.
  induction a as [|e a IH]; [reflexivity|].
  destruct e as [[i|] ? n| | | |]; simpl; try exact IH.
  destruct (Nat.eqb n ic); simpl; now rewrite IH.
Qed.


Section Overlap.

Variable tools : list Tool.
Variable marker : jsstring.
Variable create : list Message -> list Chunk.



(** *** One resumption *)

Lemma start_grows (text : jsstring) (ic : nat) (st : State) :
  grows st (snd (start create text ic st)).
Proof.
  unfold start. cbn [snd].
  eapply ConversationAgent.grows_trans;
    [apply ConversationAgent.grows_updateUserContext|].
  now apply ConversationAgent.grows_record.
Qed.


Lemma resume_grows (fuel : nat) (c : InFlight) (st : State) :
  grows st (snd (resume tools marker create fuel c st)).
Proof.
  unfold resume. destruct (settled c); [apply ConversationAgent.grows_refl|].
  destruct (pending c) as [|chunk rest].
  - cbn [snd]. eapply ConversationAgent.grows_trans;
      [apply ConversationAgent.grows_push|].
    now apply ConversationAgent.grows_record.
  - pose proof (@ConversationAgent.grows_body tools marker
                  (completion tools marker create fuel) (count c) chunk
                  (locals c) st
                  (ConversationAgent.grows_completion tools marker create fuel))
      as H.
    now destruct (body _ _ _ _ _ _ _) as [[| |] [l' st']].
Qed.



Lemma resume_times_S (fuel n : nat) (c : InFlight) (st : State) :
  resume_times tools marker create fuel (S n) c st =
  resume_times tools marker create fuel n
               (fst (resume tools marker create fuel c st))
               (snd (resume tools marker create fuel c st)).
Proof. simpl. now destruct (resume tools marker create fuel c st). Qed.

(** A call that has ended stays as it is. *)
Lemma resume_times_settled (fuel n : nat) (c : InFlight) (st : State) :
  settled c <> None ->
  resume_times tools marker create fuel n c st = (c, st).
Proof.
  intros H. induction n as [|n IH]; [reflexivity|].
  simpl. unfold resume at 1. now destruct (settled c).
Qed.

(** *** A call that is resumed alone *)



(** Resumed alone until it has ended, a call does what [completion] does:
    the outcome and the service are those of the loop over the whole
    stream followed by the two closing statements. *)
Lemma resume_times_for_await (fuel : nat) (ic : nat) (p : list Chunk) :
  forall l st o l' st3 n,
    for_await tools marker (completion tools marker create fuel) ic p l st =
      (o, (l', st3)) ->
    length p < n ->
    let r := resume_times tools marker create fuel n
               {| count := ic; locals := l; pending := p; settled := None |}
               st in
    settled (fst r) = Some o /\
    snd r =
      match o with
      | Returned =>
          let st4 := push {| role := assistant; name := None;
                             content := completeResponse l' |} st3 in
          record (ContextLength (length (userContext st4))) st4
      | _ => st3
      end.
Proof.
  induction p as [|chunk rest IH]; intros l st o l' st3 n Hfor Hn;
    (destruct n as [|n]; [inversion Hn|]); cbv zeta; rewrite resume_times_S;
    unfold resume; cbn [settled pending count locals].
  - simpl in Hfor. injection Hfor as <- <- <-. cbn [fst snd].
    rewrite resume_times_settled by discriminate. now split.
  - simpl in Hfor. simpl in Hn.
    destruct (body tools marker (completion tools marker create fuel) ic
                   chunk l st) as [o1 [l1 st1]] eqn:E.
    destruct o1 as [|e|]; cbn [fst snd].
    + apply (IH l1 st1 o l' st3 n Hfor). lia.
    + injection Hfor as <- <- <-.
      rewrite resume_times_settled by discriminate. now split.
    + injection Hfor as <- <- <-.
      rewrite resume_times_settled by discriminate. now split.
Qed.

Lemma run_alone_is_completion (fuel : nat) (text : jsstring) (ic : nat)
    (st : State) :
  let c := fst (start create text ic st) in
  let r := resume_times tools marker create fuel (S (length (pending c))) c
             (snd (start create text ic st)) in
  settled (fst r) =
    Some (fst (completion tools marker create (S fuel) text ic user
                          (str "user") st)) /\
  snd r = snd (completion tools marker create (S fuel) text ic user
                          (str "user") st).
Proof.
  cbv zeta. rewrite ConversationAgent.completion_unfold. cbv zeta.
  unfold start. cbn [fst snd pending].
  set (st1 := updateUserContext (str "user") user text st).
  set (st2 := record (Create (userContext st1)) st1).
  destruct (for_await tools marker (completion tools marker create fuel) ic
                      (create (userContext st1)) locals0 st2)
    as [o [l' st3]] eqn:E.
  destruct (@resume_times_for_await fuel ic (create (userContext st1))
              locals0 st2 o l' st3 (S (length (create (userContext st1))))
              E (Nat.lt_succ_diag_r _)) as [Hs Hst].
  cbv zeta in Hs, Hst. rewrite Hs, Hst. now destruct o.
Qed.

(** *** The calls of a connection *)



Lemma deliver_grows (fuel : nat) (cs : list InFlight) : forall k st,
  grows st (snd (deliver tools marker create fuel k cs st)).
Proof.
  induction cs as [|c0 cs IH]; intros k st; [apply ConversationAgent.grows_refl|].
  destruct k as [|k]; simpl.
  - pose proof (resume_grows fuel c0 st) as H.
    now destruct (resume tools marker create fuel c0 st).
  - pose proof (IH k st) as H.
    now destruct (deliver tools marker create fuel k cs st).
Qed.

Lemma arrive_grows (fuel : nat) (s : Server) (a : Arrival) :
  grows (service s) (service (arrive tools marker create fuel s a)).
Proof.
  destruct a as [text|k]; simpl.
  - destruct (negb (truthy text)); [apply ConversationAgent.grows_refl|].
    apply (start_grows text (interactionCount s) (service s)).
  - pose proof (deliver_grows fuel (calls s) k (service s)) as H.
    now destruct (deliver tools marker create fuel k (calls s) (service s)).
Qed.

(** Whatever arrives in whatever order, the service only appends to its log
    and its trace, and the indexed fragments of all turns together carry
    the consecutive values of the counter. *)
Lemma arrive_all_grows (fuel : nat) (arrivals : list Arrival) : forall s,
  grows (service s) (service (arrive_all tools marker create fuel s arrivals)).
Proof.
  unfold arrive_all.
  induction arrivals as [|a arrivals IH]; intros s; simpl.
  - apply ConversationAgent.grows_refl.
  - eapply ConversationAgent.grows_trans; [apply arrive_grows|apply IH].
Qed.




End Overlap.


(** The same two turns one after the other, on the same streams: 0 and 1,
    then 2 and 3. *)
Lemma turns_in_sequence :
  let arrivals :=
    Transcribed (str "quero um celular") :: repeat (Chunked 0) 5 ++
    Transcribed (str "o mais barato") :: repeat (Chunked 1) 5 in
  let current :=
    arrive_all manifest garbled_bullet (fun _ => twice_stopped_stream) 1
               fresh arrivals in
  map settled (calls current) = [Some Returned; Some Returned] /\
  turn_indices 0 (trace (service current)) = [0; 1] /\
  turn_indices 1 (trace (service current)) = [2; 3].
Proof. vm_compute. repeat split. Qed.

End OverlappingTurns.

(* --------------------------------------------------------------------- *)
(** ** The connection: utterances, marks and interruptions *)
(* --------------------------------------------------------------------- *)

Module Connections.

Import TranscriptionService TranscriptObservations GptService
       StreamObservations App Orchestrator JsFacts Samples.

Section Serving.

Variable tools : list Tool.
Variable marker : jsstring.
Variable create : list Message -> list Chunk.

Lemma serve_nonempty (fuel : nat) (texts : list jsstring) : forall c,
  Forall (fun t => t <> []) texts ->
  interactionCount (serve tools marker create (S fuel) texts c) =
    interactionCount c + length texts /\
  user_texts (userContext (gpt (serve tools marker create (S fuel) texts c))) =
    user_texts (userContext (gpt c)) ++ texts.
Proof.
  induction texts as [|t texts IH]; intros c Hall.
  - simpl. now rewrite Nat.add_0_r, app_nil_r.
  - inversion Hall as [|? ? Ht Hrest]; subst.
    unfold serve in *. cbn [fold_left].
    destruct (IH (onTranscription tools marker create (S fuel) t c) Hrest)
      as [Hic Hut].
    rewrite Hic, Hut. unfold onTranscription.
    destruct t as [|ch t]; [contradiction|]. cbn [truthy negb gpt interactionCount].
    rewrite ToolCalls.completion_user_turns. cbn [own_user_text length].
    split; [lia|]. now rewrite <- app_assoc.
Qed.

(** Every finalized utterance reaches the agent: the transcriptions the
    listener emits are never dropped by the handler's guard against empty
    text, so each of them starts a completion, the interaction count
    advances by their number, and the user turns of the log grow by exactly
    these texts, in order. *)
Theorem every_utterance_reaches_agent (fuel : nat)
    (evs : list TranscriptionEvent) (ts : TranscriptionService.State)
    (c : Call) :
  let heard := transcriptions (snd (run ts evs)) in
  let c' := serve tools marker create (S fuel) heard c in
  interactionCount c' = interactionCount c + length heard /\
  user_texts (userContext (gpt c')) =
    user_texts (userContext (gpt c)) ++ heard.
Proof.
  intros heard c'. apply serve_nonempty.
  apply (proj1 (TranscriptRuns.transcriptions_never_empty evs)).
Qed.

End Serving.

Lemma marks_acknowledge (names : list jsstring) : forall c,
  marks (acknowledge names c) = filter (unacknowledged names) (marks c) /\
  sent (acknowledge names c) = sent c /\
  streamSid (acknowledge names c) = streamSid c.
Proof.
  induction names as [|n names IH]; intros c.
  - unfold acknowledge, unacknowledged. simpl. repeat split.
    induction (marks c) as [|m ms IHm]; [reflexivity|]. simpl. now rewrite <- IHm.
  - unfold acknowledge in *. cbn [fold_left].
    destruct (IH (onMark n c)) as (Hm & Hs & Hi). rewrite Hm, Hs, Hi.
    repeat split. cbn [marks onMark].
    induction (marks c) as [|m ms IHm]; [reflexivity|]. cbn [filter].
    unfold unacknowledged at 2. cbn [forallb].
    destruct (negb (jseq m n)); cbn [filter andb]; [|exact IHm].
    fold (unacknowledged names m).
    destruct (unacknowledged names m); [now rewrite IHm|exact IHm].
Qed.

(** Once every outstanding mark has been reported by the transport, in any
    order and among any other reports, no mark is left and an interim text
    of any length interrupts nothing. *)
Theorem acknowledged_marks_end_interruptions
    (names : list jsstring) (c : Connection) (text : option jsstring) :
  (forall m, In m (marks c) -> In m names) ->
  marks (acknowledge names c) = [] /\
  onUtterance text (acknowledge names c) = acknowledge names c.
Proof.
  intros Hall.
  assert (Hnone : marks (acknowledge names c) = []).
  { rewrite (proj1 (marks_acknowledge names c)).
    induction (marks c) as [|m ms IH]; [reflexivity|]. cbn [filter].
    assert (Hm : unacknowledged names m = false).
    { specialize (Hall m (or_introl eq_refl)).
      unfold unacknowledged. clear -Hall.
      induction names as [|n names IHn]; [contradiction|].
      cbn [forallb]. destruct Hall as [->|Hin].
      - now rewrite jseq_refl.
      - rewrite (IHn Hin). apply andb_false_r. }
    rewrite Hm. apply IH. intros m' Hin. apply Hall. now right. }
  split; [exact Hnone|].
  unfold onUtterance. now rewrite Hnone.
Qed.

Lemma acknowledged_marks_end_interruptions_witness :
  marks (acknowledge [str "other"; str "7c1b9c1e"] speaking) = [] /\
  onUtterance (Some (str "espera um pouco"))
              (acknowledge [str "other"; str "7c1b9c1e"] speaking) =
    acknowledge [str "other"; str "7c1b9c1e"] speaking.
Proof.
  apply (@acknowledged_marks_end_interruptions
           [str "other"; str "7c1b9c1e"] speaking (Some (str "espera um pouco"))).
  intros m [<-|[]]. right. now left.
Defined.

(** Interruptions are not debounced: while marks are outstanding, every
    interim text longer than the threshold sends one more "clear", and the
    marks stay as they are. *)
Theorem every_long_interim_sends_clear
    (texts : list (option jsstring)) (c : Connection) :
  marks c <> [] ->
  forallb long_enough texts = true ->
  interrupt texts c =
    {| streamSid := streamSid c;
       marks := marks c;
       sent := sent c ++ repeat (Clear (streamSid c)) (length texts) |}.
Proof.
  intros Hm. revert c Hm.
  induction texts as [|t texts IH]; intros c Hm Hall.
  - destruct c. simpl. now rewrite app_nil_r.
  - simpl in Hall. apply andb_true_iff in Hall as [Ht Hrest].
    unfold interrupt in *. cbn [fold_left].
    assert (E : onUtterance t c =
                {| streamSid := streamSid c; marks := marks c;
                   sent := sent c ++ [Clear (streamSid c)] |}).
    { unfold onUtterance. rewrite Ht.
      destruct (marks c); [contradiction|reflexivity]. }
    rewrite E, IH; [|exact Hm|exact Hrest].
    cbn [streamSid marks sent length repeat]. now rewrite <- app_assoc.
Qed.

Lemma every_long_interim_sends_clear_witness :
  interrupt [Some (str "espera um pouco"); Some (str "espera ai")] speaking =
    {| streamSid := streamSid speaking;
       marks := marks speaking;
       sent := [Clear (streamSid speaking); Clear (streamSid speaking)] |}.
Proof.
  apply (@every_long_interim_sends_clear
           [Some (str "espera um pouco"); Some (str "espera ai")] speaking).
  - discriminate.
  - reflexivity.
Defined.

(** A report for a label that is not outstanding changes nothing, so
    sending audio under a fresh label and getting its report back restores
    the connection as it was. *)
Theorem mark_round_trip (label : jsstring) (c : Connection) :
  ~ In label (marks c) ->
  onMark label c = c /\ onMark label (onAudioSent label c) = c.
Proof.
  intros Hnot.
  assert (Hkeep : filter (fun m => negb (jseq m label)) (marks c) = marks c).
  { induction (marks c) as [|m ms IH]; [reflexivity|]. cbn [filter].
    assert (Hm : jseq m label = false).
    { apply jseq_neq. intros ->. apply Hnot. now left. }
    rewrite Hm. cbn [negb]. f_equal. apply IH. intros Hin. apply Hnot. now right. }
  split.
  - unfold onMark. rewrite Hkeep. now destruct c.
  - unfold onMark, onAudioSent. cbn [marks sent streamSid].
    rewrite filter_app, Hkeep. cbn [filter]. rewrite jseq_refl. cbn [negb].
    rewrite app_nil_r. now destruct c.
Qed.

Lemma mark_round_trip_witness :
  onMark (str "a81f") speaking = speaking /\
  onMark (str "a81f") (onAudioSent (str "a81f") speaking) = speaking.
Proof.
  apply (@mark_round_trip (str "a81f") speaking).
  intros [H|[]]. discriminate H.
Defined.

End Connections.

(* --------------------------------------------------------------------- *)
(** ** The prompt file: what is saved is what is served *)
(* --------------------------------------------------------------------- *)

Module PromptFacts.

Import Json PromptFile JsonFacts.

Lemma hex_value_digit (d : N) : (d < 16)%N -> hex_value (hex_digit d) = Some d.
Proof.
  intros Hd. unfold hex_digit, hex_value.
  destruct (d <? 10)%N eqn:E.
  - apply N.ltb_lt in E.
    replace ((48 <=? 48 + d) && (48 + d <=? 57))%N with true.
    + f_equal. lia.
    + symmetry. apply andb_true_iff. split; apply N.leb_le; lia.
  - apply N.ltb_ge in E.
    replace ((48 <=? 87 + d) && (87 + d <=? 57))%N with false.
    + replace ((97 <=? 87 + d) && (87 + d <=? 102))%N with true.
      * f_equal. lia.
      * symmetry. apply andb_true_iff. split; apply N.leb_le; lia.
    + symmetry. apply andb_false_iff. right. apply N.leb_gt. lia.
Qed.

Lemma hex4_escape (c : N) : (c < 65536)%N ->
  hex4 (hex_digit (((c / 16) / 16) / 16)) (hex_digit (((c / 16) / 16) mod 16))
       (hex_digit ((c / 16) mod 16)) (hex_digit (c mod 16)) = Some c.
Proof.
  intros Hc. unfold hex4. pose proof Hc as Hc0.
  rewrite !hex_value_digit.
  - f_equal.
    pose proof (N.div_mod c 16) as E0. pose proof (N.mod_lt c 16) as L0.
    pose proof (N.div_mod (c / 16) 16) as E1.
    pose proof (N.mod_lt (c / 16) 16) as L1.
    pose proof (N.div_mod (c / 16 / 16) 16) as E2.
    pose proof (N.mod_lt (c / 16 / 16) 16) as L2.
    generalize dependent (c mod 16)%N. intros d0.
    generalize dependent ((c / 16) mod 16)%N. intros d1.
    generalize dependent ((c / 16 / 16) mod 16)%N. intros d2.
    generalize dependent (c / 16 / 16 / 16)%N. intros d3.
    generalize dependent (c / 16 / 16)%N. intros c2.
    generalize dependent (c / 16)%N. intros c1.
    intros. lia.
  - apply N.mod_lt. lia.
  - apply N.mod_lt. lia.
  - apply N.mod_lt. lia.
  - repeat (apply N.Div0.div_lt_upper_bound). lia.
Qed.

Lemma string_chars_raw (c : char) (tail acc : jsstring) :
  (c =? 34)%N = false -> (c =? 92)%N = false -> (c <? 32)%N = false ->
  string_chars (c :: tail) acc = string_chars tail (c :: acc).
Proof. intros H1 H2 H3. cbn [string_chars]. now rewrite H1, H2, H3. Qed.

Lemma string_chars_unicode_escape (c : char) (tail acc : jsstring) :
  (c < 65536)%N ->
  string_chars (unicode_escape c ++ tail) acc = string_chars tail (c :: acc).
Proof.
  intros Hc. unfold unicode_escape. cbn [app string_chars N.eqb Pos.eqb].
  now rewrite (hex4_escape Hc).
Qed.

Lemma string_chars_quote_unit (c : char) (tail acc : jsstring) :
  string_chars (quote_unit c ++ tail) acc = string_chars tail (c :: acc).
Proof.
  unfold quote_unit.
  repeat match goal with
  | |- context [if (c =? ?k)%N then _ else _] =>
      destruct (N.eqb_spec c k) as [->|?]; [reflexivity|]
  end.
  destruct (c <? 32)%N eqn:E.
  - apply string_chars_unicode_escape. apply N.ltb_lt in E. lia.
  - apply string_chars_raw; [apply N.eqb_neq| apply N.eqb_neq|]; assumption.
Qed.

(** Reading back what [QuoteJSONString] wrote gives the string. *)
Lemma string_chars_quote_chars (n : nat) : forall s acc rest,
  length s <= n ->
  string_chars (quote_chars s ++ 34%N :: rest) acc = Ok (rev acc ++ s) rest.
Proof.
  induction n as [|n IH]; intros s acc rest Hn.
  - destruct s; [|simpl in Hn; lia]. simpl. now rewrite app_nil_r.
  - destruct s as [|c s']; [simpl; now rewrite app_nil_r|].
    simpl in Hn. cbn [quote_chars].
    assert (Hstep : forall tail, rev (c :: acc) ++ tail = rev acc ++ c :: tail).
    { intros tail. simpl. now rewrite <- app_assoc. }
    destruct (is_high_surrogate c) eqn:Hh.
    + unfold is_high_surrogate in Hh. apply andb_true_iff in Hh as [Hlo Hhi].
      apply N.leb_le in Hlo, Hhi.
      destruct s' as [|d s''].
      * rewrite string_chars_unicode_escape by lia. reflexivity.
      * destruct (is_low_surrogate d) eqn:Hl.
        -- unfold is_low_surrogate in Hl. apply andb_true_iff in Hl as [Hlo' Hhi'].
           apply N.leb_le in Hlo', Hhi'.
           cbn [app].
           rewrite string_chars_raw;
             [|apply N.eqb_neq; lia|apply N.eqb_neq; lia|apply N.ltb_ge; lia].
           rewrite string_chars_raw;
             [|apply N.eqb_neq; lia|apply N.eqb_neq; lia|apply N.ltb_ge; lia].
           rewrite IH by (simpl in Hn; lia).
           simpl. now rewrite <- !app_assoc.
        -- rewrite <- app_assoc, string_chars_unicode_escape by lia.
           rewrite IH by lia. now rewrite Hstep.
    + destruct (is_low_surrogate c) eqn:Hl.
      * unfold is_low_surrogate in Hl. apply andb_true_iff in Hl as [Hlo Hhi].
        apply N.leb_le in Hlo, Hhi.
        rewrite <- app_assoc, string_chars_unicode_escape by lia.
        rewrite IH by lia. now rewrite Hstep.
      * rewrite <- app_assoc, string_chars_quote_unit.
        rewrite IH by lia. now rewrite Hstep.
Qed.

Lemma string_chars_quoted (s rest : jsstring) :
  string_chars (quote_chars s ++ 34%N :: rest) [] = Ok s rest.
Proof. apply (string_chars_quote_chars (n := length s)). lia. Qed.


Lemma budget_stringify (s a : jsstring) :
  exists k, budget (stringify_prompts s a) = 4 + k.
Proof.
  unfold budget, stringify_prompts. rewrite length_app. cbn [str length map String.list_ascii_of_string].
  eexists. simpl. reflexivity.
Qed.

Lemma parse_stringify_prompts (s a : jsstring) :
  JSON_parse (stringify_prompts s a) =
    Some (JObject [(str "system_prompt", JString s);
                   (str "assistant_prompt", JString a)]).
Proof.
  unfold JSON_parse. destruct (budget_stringify s a) as [k ->].
  unfold stringify_prompts, quote.
  simpl.
  rewrite <- app_assoc. cbn [app]. rewrite string_chars_quoted. simpl.
  rewrite <- app_assoc. cbn [app]. rewrite string_chars_quoted. simpl.
  reflexivity.
Qed.

(** What the dashboard saves is what it is served back: after a request to
    save two non-empty prompts, whatever code units they hold (quotes, line
    breaks, control characters, lone surrogates), GET /api/prompt answers
    200 with exactly these two strings; a request with a prompt missing or
    empty leaves the file, and so the answer, as it was. *)
Theorem saved_prompt_is_served (body : PromptBody) (file : option jsstring) :
  getPrompt (snd (postPrompt body file)) =
    if missing (system_prompt body) || missing (assistant_prompt body) then
      getPrompt file
    else
      SendJson 200
        (JObject [(str "system_prompt",
                   JString (or_default (system_prompt body)));
                  (str "assistant_prompt",
                   JString (or_default (assistant_prompt body)))]).
Proof.
  unfold postPrompt.
  destruct (missing (system_prompt body) || missing (assistant_prompt body));
    [reflexivity|].
  cbn [snd getPrompt]. now rewrite parse_stringify_prompts.
Qed.

End PromptFacts.
